(** * Technology-group target scheduler of [switch_model.hawaii.heco_outlook_2019]

    A shallow embedding of [define_components] and of the rules it registers
    on the Pyomo model, followed by the properties of the scheduler:
    merging of the build tables, reconstruction of retiring capacity,
    aggregation into per-period targets, and the choice between an exact
    target, a lower bound and no constraint.

    Conventions of the embedding.
    - Years, period start years and service lives are whole numbers ([Z]);
      capacities are exact rationals ([Q]) standing for Python floats, summed
      left to right from 0 as [sum] does.
    - A Python list that is shared between two names lives in a [heap] of
      list objects and is named by its location, so an [append] through one
      name is seen through the other.
    - A computation either returns, raises, or exhausts the fuel given to
      its [while] loop ([outcome]). *)

From Stdlib Require Import ZArith QArith Bool Ascii String List Lia.
From stdpp Require Import base option list sorting gmap strings.

Local Open Scope string_scope.
Local Open Scope list_scope.
Local Open Scope Z_scope.

(** ** Outcomes: return, exception, or an unfinished loop *)

Inductive exn : Type :=
| ValueError (msg : string)
| RuntimeError (msg : string)
| AssertionError (msg : string)
| NotImplementedError (msg : string)
| KeyError (key : string)
| IndexError (msg : string).

Inductive outcome (A : Type) : Type :=
| Return (a : A)
| Raise (e : exn)
| OutOfFuel.

Arguments Return {A} a.
Arguments Raise {A} e.
Arguments OutOfFuel {A}.

#[global] Instance outcome_ret : MRet outcome := fun A a => Return a.

#[global] Instance outcome_bind : MBind outcome := fun A B k c =>
  match c with
  | Return a => k a
  | Raise e => Raise e
  | OutOfFuel => OutOfFuel
  end.

Definition assert_ (b : bool) (msg : string) : outcome unit :=
  if b then Return tt else Raise (AssertionError msg).

Definition terminates {A} (c : outcome A) : Prop := c <> OutOfFuel.

(** ** Strings: [str.lower], [in] on strings and on lists of strings *)

Definition lower_ascii (c : ascii) : ascii :=
  let n := nat_of_ascii c in
  if ((65 <=? n) && (n <=? 90))%nat then ascii_of_nat (n + 32) else c.

(** [s.lower()]. Bytes outside A-Z are kept; no character outside ASCII
    lowers to one of the letters used by the spellings compared below. *)
Fixpoint lower (s : string) : string :=
  match s with
  | EmptyString => EmptyString
  | String c s' => String (lower_ascii c) (lower s')
  end.

(** [s in l] for a list of strings. *)
Definition str_in (s : string) (l : list string) : bool :=
  existsb (String.eqb s) l.

(** [txt in s] for two strings: [txt] occurs as a substring of [s]. *)
Fixpoint substr_in (txt s : string) : bool :=
  String.prefix txt s ||
  match s with
  | EmptyString => false
  | String _ s' => substr_in txt s'
  end.

Definition is_renewable (tech : string) : bool :=
  existsb (fun txt => substr_in txt tech) ["PV"; "Wind"; "Solar"].

Definition is_battery (tech : string) : bool :=
  substr_in "battery" (lower tech).

(** ** The PSIP flag (lines 47-56) *)

Definition psip_true_spellings : list string := ["1"; "true"; "y"; "yes"; "on"].
Definition psip_false_spellings : list string := ["0"; "false"; "n"; "no"; "off"].

Definition msg_unrecognized_env : string :=
  "Unrecognized value for environment variable USE_PSIP_PLAN (should be 0 or 1)".

(** [psip_env_var] is [os.environ.get('USE_PSIP_PLAN')], [psip_force] the
    command-line flag. *)
Definition resolve_psip (psip_env_var : option string) (psip_force : bool)
  : outcome bool :=
  match psip_env_var with
  | None => Return psip_force
  | Some v =>
      if str_in (lower v) psip_true_spellings then Return true
      else if str_in (lower v) psip_false_spellings then Return false
      else Raise (ValueError msg_unrecognized_env)
  end.

(** ** Build targets and the heap of shared lists *)

(** The third component of a target: a number (MW added) or, for storage
    with a free energy value, a tuple (MW, hours). *)
Inductive quantity : Type :=
| MW (mw : Q)
| MW_hours (mw hours : Q).

(** A target tuple (year, tech group, quantity). *)
Definition target : Type := Z * string * quantity.

Definition t_year (t : target) : Z := t.1.1.
Definition t_group (t : target) : string := t.1.2.
Definition t_quantity (t : target) : quantity := t.2.

(** Locations are indices into the heap, a list of list objects. *)
Abbreviation loc := nat (only parsing).
Abbreviation heap := (list (list target)) (only parsing).

(** A fresh list object holding [l]. *)
Definition new_list (l : list target) (h : heap) : loc * heap :=
  (length h, h ++ [l]).

(** The current contents of the list object at [r]. *)
Definition contents (h : heap) (r : loc) : list target :=
  default [] (h !! r).

(** [r.append(x)]: the object at [r] is updated in place. *)
Definition append (r : loc) (x : target) (h : heap) : heap :=
  alter (fun l => l ++ [x]) r h.

(** ** Merging the definite and the PSIP tables (lines 365-374) *)

(** [tech_group_targets_definite + psip_targets] builds a new list object;
    without PSIP the name [tech_group_targets] is bound to the object of
    [tech_group_targets_definite] itself. *)
Definition merge_targets (psip : bool) (psip_relax_after : option Q)
    (tech_group_targets_psip : list target) (definite : loc) (h : heap)
  : loc * heap :=
  if psip then
    let psip_targets :=
      match psip_relax_after with
      | Some r =>
          List.filter (fun t => Qle_bool (inject_Z (t_year t)) r)
            tech_group_targets_psip
      | None => tech_group_targets_psip
      end in
    new_list (contents h definite ++ psip_targets) h
  else (definite, h).

(** ** Technology groups (lines 378-393) *)

Definition techs_for_tech_group_base : list (string * list string) :=
  [ ("DistPV", ["DistPV"; "SlopedDistPV"; "FlatDistPV"]);
    ("LargePV", ["CentralTrackingPV"; "CentralFixedPV"]) ].

(** The groups named by targets that are not keys of the base table, each
    once. *)
Fixpoint missing_techs (keys : list string) (tgts : list target)
  : list string :=
  match tgts with
  | [] => []
  | t :: rest =>
      let ms := missing_techs keys rest in
      if str_in (t_group t) keys || str_in (t_group t) ms then ms
      else t_group t :: ms
  end.

(** The dict after [update]: the base entries, then one singleton entry
    per missing group. *)
Definition make_techs_for_tech_group (tgts : list target)
  : list (string * list string) :=
  techs_for_tech_group_base ++
  map (fun t => (t, [t]))
      (missing_techs (map fst techs_for_tech_group_base) tgts).

(** The reverse mapping; a later item overwrites an earlier one. *)
Definition make_tech_tech_group (items : list (string * list string))
  : gmap string string :=
  foldl (fun d '(tech_group, techs) =>
           foldl (fun d tech => <[tech := tech_group]> d) d techs)
        ∅ items.

(** ** Rebuilding at retirement (lines 429-447) *)

(** A row of [ages]: min, max and mean of [gen_max_age] over one group. *)
Record age_stats : Type := { age_min : Z; age_max : Z; age_mean : Z }.

Definition msg_no_matching_tech : string :=
  "A target has been specified but there are no matching technologies in generation_projects_info.csv.".

(** The [while] loop of one rebuildable target; [rebuild] is the loop
    counter and [tgts] the location of [tech_group_targets]. *)
Fixpoint rebuild_while (fuel : nat) (build_year max_age last_period : Z)
    (tech_group : string) (cap : quantity) (tgts : loc) (rebuild : Z)
    (h : heap) : outcome heap :=
  match fuel with
  | O => OutOfFuel
  | S fuel' =>
      if build_year + rebuild * max_age <=? last_period then
        rebuild_while fuel' build_year max_age last_period tech_group cap tgts
          (rebuild + 1)
          (append tgts (build_year + rebuild * max_age, tech_group, cap) h)
      else Return h
  end.

(** The [for] loop over the list [rebuildable_targets], which is a copy
    made before the loop starts; the state is the heap and [tech_life]. *)
Fixpoint rebuild_for (fuel : nat) (ages : gmap string age_stats)
    (last_period : Z) (tgts : loc) (rebuildable_targets : list target)
    (st : heap * gmap string Z) : outcome (heap * gmap string Z) :=
  match rebuildable_targets with
  | [] => Return st
  | (build_year, tech_group, cap) :: rest =>
      match ages !! tech_group with
      | None => Raise (ValueError msg_no_matching_tech)
      | Some row =>
          let max_age := age_mean row in
          let tech_life := <[tech_group := max_age]> st.2 in
          h' ← rebuild_while fuel build_year max_age last_period tech_group
                 cap tgts 1 st.1;
          rebuild_for fuel ages last_period tgts rest (h', tech_life)
      end
  end.

(** The power and the energy view of the targets (lines 450-455). *)
Definition power_of (q : quantity) : Q :=
  match q with MW mw => mw | MW_hours mw _ => mw end.

Definition make_power_targets (tgts : list target) : list (Z * string * Q) :=
  map (fun t => (t_year t, t_group t, power_of (t_quantity t))) tgts.

Fixpoint make_energy_targets (tgts : list target) : list (Z * string * Q) :=
  match tgts with
  | [] => []
  | (y, t, MW_hours mw hours) :: rest =>
      (y, t, (mw * hours)%Q) :: make_energy_targets rest
  | (_, _, MW _) :: rest => make_energy_targets rest
  end.

(** Last year with a definite target, per group (lines 532-534). *)
Definition make_last_definite_target (definite : list target)
  : gmap string Z :=
  foldl (fun d t => <[t_group t := Z.max (t_year t) (default 0 (d !! t_group t))]> d)
        ∅ definite.

(** ** The model object [m] *)

Record options : Type := {
  psip_force : bool;
  psip_minimal_renewables : bool;
  force_build : option target;           (* --force-build, already converted *)
  psip_relax_after : option Q;
  force_lng_tier : option (list string); (* absent when the module is not used *)
}.

(** What [define_components] and its rules read from [m], from the
    environment and from the input directory. The frames [existing_techs]
    and [ages] are taken as pandas computes them at lines 412-423;
    [PERIODS] is the first column of periods.csv. *)
Record model : Type := {
  opts : options;
  USE_PSIP_PLAN : option string;
  FUELS : list string;
  existing_techs : list (Z * string * Q);
  ages : gmap string age_stats;
  PERIODS : list Z;
  GENERATION_PROJECTS : list string;
  gen_tech : string -> string;
  BuildGen : list (string * Z);
  BuildStorageEnergy : list (string * Z);
  gen_unit_size : list (string * Q);
  gen_predetermined_cap : list (string * Z * Q);
  STORAGE_GENS : list string;
  gen_storage_energy_to_power_ratio : string -> option Q; (* None: infinite *)
}.

(** What the rules registered by [define_components] close over. *)
Record components : Type := {
  psip : bool;
  tech_group_targets_definite : list target;
  tech_group_targets : list target;
  techs_for_tech_group : list (string * list string);
  tech_tech_group : gmap string string;
  tech_life : gmap string Z;
  tech_group_power_targets : list (Z * string * Q);
  tech_group_energy_targets : list (Z * string * Q);
  last_definite_target : gmap string Z;
}.

Definition msg_lng : string :=
  "To match the PSIP with LNG available, you must use the lng_conversion module and set --force-lng-tier none.".
Definition msg_batteries : string :=
  "Must update the module to handle pre-existing batteries.".
Definition msg_mixed_ages : string :=
  "Some psip technologies have mixed ages.".
Definition msg_no_periods : string :=
  "single positional indexer is out-of-bounds".
Definition msg_todo_psip : string :=
  "Need to force construction to zero for technologies without targets in the PSIP.".

(** The two tables of the module (lines 155-311 and 330-363). *)
Definition heco_tech_group_targets_definite : list target :=
  [ (2020, "DistPV", MW (606.3 - 444));
    (2022, "DistPV", MW (680.3 - 606.3));
    (2025, "DistPV", MW (744.9 - 680.3));
    (2030, "DistPV", MW (868.7 - 744.9));
    (2035, "DistPV", MW (1015.4 - 868.7));
    (2040, "DistPV", MW (1163.4 - 1015.4));
    (2045, "DistPV", MW (1307.9 - 1163.4));
    (2020, "DistBattery", MW_hours (56 / 4) 4);
    (2022, "DistBattery", MW_hours ((79 - 56) / 4) 4);
    (2025, "DistBattery", MW_hours ((108 - 79) / 4) 4);
    (2030, "DistBattery", MW_hours ((157 - 108) / 4) 4);
    (2035, "DistBattery", MW_hours ((213 - 157) / 4) 4);
    (2040, "DistBattery", MW_hours ((264 - 213) / 4) 4);
    (2045, "DistBattery", MW_hours ((306 - 264) / 4) 4);
    (2020, "OnshoreWind", MW 27);
    (2020, "LargePV", MW 5);
    (2020, "LargePV", MW 3.5);
    (2020, "LargePV", MW 4.990);
    (2022, "LargePV", MW 150);
    (2021, "LargePV", MW 12.5);
    (2021, "LargePV", MW 52);
    (2021, "LargePV", MW 39);
    (2021, "LargePV", MW 36);
    (2021, "Battery_Bulk", MW_hours (12.5 + 52 + 39 + 36) 4);
    (2022, "LargePV", MW 560) ].

Definition heco_tech_group_targets_psip : list target :=
  [ (2022, "IC_Barge", MW 100);
    (2022, "IC_MCBH", MW 54);
    (2025, "LargePV", MW 200);
    (2025, "OffshoreWind", MW 200);
    (2040, "LargePV", MW 280);
    (2045, "LargePV", MW 1180);
    (2045, "IC_MCBH", MW 68);
    (2025, "Battery_Bulk", MW_hours 29 4);
    (2030, "Battery_Bulk", MW_hours 165 4);
    (2035, "Battery_Bulk", MW_hours 168 4);
    (2040, "Battery_Bulk", MW_hours 420 4);
    (2045, "Battery_Bulk", MW_hours 1525 4) ].

(** The existing renewables and batteries that are rebuilt (lines 429-433). *)
Definition existing_rebuildable (rows : list (Z * string * Q)) : list target :=
  map (fun '(y, t, q) => (y, t, MW q))
      (List.filter (fun '(_, t, _) => is_renewable t || is_battery t) rows).

(** [rebuildable_targets]: a new list, the existing rows that qualify
    followed by the current contents of [tech_group_targets]. *)
Definition rebuildable_targets (m : model) (tgts : loc) (h : heap)
  : list target :=
  existing_rebuildable (existing_techs m) ++ contents h tgts.

(** Lines 422-447: the two assertions on the frames, the last period, and
    the reconstruction of every rebuildable target. [tgts] is the location
    of [tech_group_targets]; [rebuildable_targets] is a new list, so the
    loop does not visit what it appends. *)
Definition rebuild_targets (fuel : nat) (m : model) (tgts : loc) (h : heap)
  : outcome (heap * gmap string Z) :=
  assert_ (negb (existsb (fun '(_, t, _) => is_battery t) (existing_techs m)))
    msg_batteries;;
  assert_ (forallb (fun row => age_min row.2 =? age_max row.2)
             (map_to_list (ages m)))
    msg_mixed_ages;;
  last_period ← match last (PERIODS m) with
                | Some p => Return p
                | None => Raise (IndexError msg_no_periods)
                end;
  rebuild_for fuel (ages m) last_period tgts (rebuildable_targets m tgts h)
    (h, ∅).

(** [define_components], with the two literal tables of the module as
    arguments. The component rules it registers are the definitions that
    follow; they are run when the model instance is constructed. *)
Definition define_components (fuel : nat)
    (definite_table psip_table : list target) (m : model)
  : outcome components :=
  psip ← resolve_psip (USE_PSIP_PLAN m) (psip_force (opts m));
  (if psip && str_in "LNG" (FUELS m)
      && bool_decide (default [] (force_lng_tier (opts m)) ≠ ["none"])
   then Raise (RuntimeError msg_lng) else Return tt);;
  let '(definite, h) := new_list definite_table [] in
  let h := match force_build (opts m) with
           | Some build => append definite build h
           | None => h
           end in
  let '(tgts, h) := merge_targets psip (psip_relax_after (opts m))
                      psip_table definite h in
  let techs_for_tech_group := make_techs_for_tech_group (contents h tgts) in
  let tech_tech_group := make_tech_tech_group techs_for_tech_group in
  '(h, tech_life) ← rebuild_targets fuel m tgts h;
  let tech_group_targets := contents h tgts in
  let last_definite_target := make_last_definite_target (contents h definite) in
  (if psip then Raise (NotImplementedError msg_todo_psip) else Return tt);;
  Return {|
    psip := psip;
    tech_group_targets_definite := contents h definite;
    tech_group_targets := tech_group_targets;
    techs_for_tech_group := techs_for_tech_group;
    tech_tech_group := tech_tech_group;
    tech_life := tech_life;
    tech_group_power_targets := make_power_targets tech_group_targets;
    tech_group_energy_targets := make_energy_targets tech_group_targets;
    last_definite_target := last_definite_target;
  |}.

Definition FORECASTED_TECH_GROUPS (c : components) : list string :=
  map fst (techs_for_tech_group c).

Definition in_FORECASTED_TECHS (c : components) (tech : string) : bool :=
  bool_decide (is_Some (tech_tech_group c !! tech)).

Definition in_RENEWABLE_TECH_GROUPS (c : components) (tg : string) : bool :=
  str_in tg (FORECASTED_TECH_GROUPS c) && is_renewable tg.

(** ** Period targets (lines 468-488) *)

(** [m.PERIODS.first()] and [m.PERIODS.prev(per)] of the ordered set. *)
Definition PERIODS_first (P : list Z) : outcome Z :=
  match P with
  | p :: _ => Return p
  | [] => Raise (IndexError "first() of an empty set")
  end.

Fixpoint PERIODS_ord (P : list Z) (per : Z) : option nat :=
  match P with
  | [] => None
  | p :: rest => if per =? p then Some O else S <$> PERIODS_ord rest per
  end.

Definition PERIODS_prev (P : list Z) (per : Z) : outcome Z :=
  match PERIODS_ord P per with
  | Some (S i) =>
      match P !! i with
      | Some p => Return p
      | None => Raise (IndexError "prev")
      end
  | Some O => Raise (IndexError "Cannot advance before the beginning of the Set")
  | None => Raise (IndexError "Cannot identify position of a member not in the Set")
  end.

(** The generator summed by [tech_group_target]: the condition is read
    left to right and [tech_life[ttech]] is looked up only when the
    earlier conjuncts hold; [acc] is the running total of [sum]. *)
Fixpoint sum_targets (tech_life : gmap string Z) (tech : string)
    (start end_ : Z) (targets : list (Z * string * Q)) (acc : Q)
  : outcome Q :=
  match targets with
  | [] => Return acc
  | (tyear, ttech, q) :: rest =>
      if String.eqb ttech tech && (start <? tyear) && (tyear <=? end_) then
        match tech_life !! ttech with
        | None => Raise (KeyError ttech)
        | Some life =>
            if tyear + life >? end_
            then sum_targets tech_life tech start end_ rest (acc + q)%Q
            else sum_targets tech_life tech start end_ rest acc
        end
      else sum_targets tech_life tech start end_ rest acc
  end.

Definition tech_group_target (c : components) (m : model) (per : Z)
    (tech : string) (targets : list (Z * string * Q)) : outcome Q :=
  first ← PERIODS_first (PERIODS m);
  start ← (if per =? first then Return 0 else PERIODS_prev (PERIODS m) per);
  let end_ := per in
  sum_targets (tech_life c) tech start end_ targets 0%Q.

Definition tech_group_power_target (c : components) (m : model) (per : Z)
    (tech : string) : outcome Q :=
  tech_group_target c m per tech (tech_group_power_targets c).

Definition tech_group_energy_target (c : components) (m : model) (per : Z)
    (tech : string) : outcome Q :=
  tech_group_target c m per tech (tech_group_energy_targets c).

(** ** Unit sizes and predetermined capacity (lines 490-523) *)

Record tech_group_dicts : Type := {
  tech_group_unit_size_dict : gmap string Q;
  tech_group_predetermined_power_cap_dict : gmap (string * Z) Q;
  tech_group_predetermined_energy_cap_dict : gmap (string * Z) Q;
}.

Definition msg_unit_sizes : string :=
  "Generation technology uses different unit sizes for different projects.".
Definition msg_todo_energy : string :=
  "Need to lookup predetermined energy capacity for storage technologies.".

Fixpoint unit_sizes_loop (c : components) (m : model)
    (items : list (string * Q)) (unit_sizes : gmap string Q)
  : outcome (gmap string Q) :=
  match items with
  | [] => Return unit_sizes
  | (g, unit_size) :: rest =>
      match tech_tech_group c !! gen_tech m g with
      | Some tech_group =>
          match unit_sizes !! tech_group with
          | Some u =>
              if negb (Qeq_bool u unit_size)
              then Raise (ValueError msg_unit_sizes)
              else unit_sizes_loop c m rest unit_sizes
          | None =>
              unit_sizes_loop c m rest (<[tech_group := unit_size]> unit_sizes)
          end
      | None => unit_sizes_loop c m rest unit_sizes
      end
  end.

(** [d[tech_group, per] += cap] on a [defaultdict(float)]. *)
Definition predetermined_power_loop (c : components) (m : model)
    (items : list (string * Z * Q)) : gmap (string * Z) Q :=
  foldl (fun d '(g, per, cap) =>
           match tech_tech_group c !! gen_tech m g with
           | Some tech_group =>
               <[(tech_group, per) := (default 0%Q (d !! (tech_group, per)) + cap)%Q]> d
           | None => d
           end)
        ∅ items.

(** The energy dict is created empty and nothing is ever stored in it; a
    forecasted storage project with predetermined capacity and a free
    energy-to-power ratio stops the construction. *)
Fixpoint predetermined_energy_loop (c : components) (m : model)
    (items : list (string * Z * Q)) (d : gmap (string * Z) Q)
  : outcome (gmap (string * Z) Q) :=
  match items with
  | [] => Return d
  | (g, per, cap) :: rest =>
      if in_FORECASTED_TECHS c (gen_tech m g) && str_in g (STORAGE_GENS m) then
        match gen_storage_energy_to_power_ratio m g with
        | None => Raise (NotImplementedError msg_todo_energy)
        | Some _ => predetermined_energy_loop c m rest d
        end
      else predetermined_energy_loop c m rest d
  end.

Definition MakeTechGroupDicts_rule (c : components) (m : model)
  : outcome tech_group_dicts :=
  unit_sizes ← unit_sizes_loop c m (gen_unit_size m) ∅;
  let power := predetermined_power_loop c m (gen_predetermined_cap m) in
  energy ← predetermined_energy_loop c m (gen_predetermined_cap m) ∅;
  Return {|
    tech_group_unit_size_dict := unit_sizes;
    tech_group_predetermined_power_cap_dict := power;
    tech_group_predetermined_energy_cap_dict := energy;
  |}.

(** ** Enforcing the targets (lines 536-593) *)

(** A constraint expression over the sum of the build variables with the
    listed indices, or [Constraint.Skip]. *)
Inductive constraint : Type :=
| Constraint_Skip
| Build_eq (build : list (string * Z)) (target : Q)
| Build_ge (build : list (string * Z)) (target : Q).

Definition msg_no_projects : string :=
  "Target was set, but no matching projects are available.".

(** The variables summed into [build]. *)
Definition matching_build_vars (c : components) (m : model) (per : Z)
    (tech_group : string) (build_var : list (string * Z))
  : list (string * Z) :=
  map (fun g => (g, per))
    (List.filter
       (fun g =>
          match tech_tech_group c !! gen_tech m g with
          | Some tg => String.eqb tg tech_group
                       && bool_decide ((g, per) ∈ build_var)
          | None => false
          end)
       (GENERATION_PROJECTS m)).

(** [build] is the [sum] of the matching variables: the int 0 when there is
    none, a Pyomo expression otherwise, so the first test of the rule is
    whether the list of matching variables is empty. *)
Definition tech_group_target_rule (c : components) (m : model) (per : Z)
    (tech_group : string) (build_var : list (string * Z)) (target : Q)
  : outcome constraint :=
  let build := matching_build_vars c m per tech_group build_var in
  match build with
  | [] =>
      if Qeq_bool target 0 then Return Constraint_Skip
      else Raise (ValueError msg_no_projects)
  | _ :: _ =>
      if psip c && match psip_relax_after (opts m) with
                   | None => true
                   | Some r => Qle_bool (inject_Z per) r
                   end
      then Return (Build_eq build target)
      else if per <=? default 0 (last_definite_target c !! tech_group)
      then Return (Build_eq build target)
      else if psip_minimal_renewables (opts m)
              && in_RENEWABLE_TECH_GROUPS c tech_group
      then Return (Build_eq build target)
      else Return (Build_ge build target)
  end.

Definition Enforce_Tech_Group_Power_Target (c : components)
    (d : tech_group_dicts) (m : model) (per : Z) (tech_group : string)
  : outcome constraint :=
  power_target ← tech_group_power_target c m per tech_group;
  let target :=
    (power_target
     + default 0%Q (tech_group_predetermined_power_cap_dict d !! (tech_group, per)))%Q in
  tech_group_target_rule c m per tech_group (BuildGen m) target.

Definition Enforce_Tech_Group_Energy_Target (c : components)
    (d : tech_group_dicts) (m : model) (per : Z) (tech_group : string)
  : outcome constraint :=
  energy_target ← tech_group_energy_target c m per tech_group;
  let target :=
    (energy_target
     + default 0%Q (tech_group_predetermined_energy_cap_dict d !! (tech_group, per)))%Q in
  tech_group_target_rule c m per tech_group (BuildStorageEnergy m) target.

(** ** Constructing the instance: every rule at every index *)

Fixpoint for_each {A B} (f : A -> outcome B) (l : list A)
  : outcome (list (A * B)) :=
  match l with
  | [] => Return []
  | a :: rest =>
      b ← f a;
      bs ← for_each f rest;
      Return ((a, b) :: bs)
  end.

(** The index set [m.PERIODS * m.FORECASTED_TECH_GROUPS]. *)
Definition target_index (c : components) (m : model) : list (Z * string) :=
  per ← PERIODS m; tg ← FORECASTED_TECH_GROUPS c; [(per, tg)].

Record instance : Type := {
  power_target_values : list (Z * string * Q);
  energy_target_values : list (Z * string * Q);
  dicts : tech_group_dicts;
  power_constraints : list (Z * string * constraint);
  energy_constraints : list (Z * string * constraint);
}.

(** The components are constructed in the order of their declaration. *)
Definition construct (c : components) (m : model) : outcome instance :=
  let idx := target_index c m in
  pw ← for_each (fun '(per, tg) => tech_group_power_target c m per tg) idx;
  en ← for_each (fun '(per, tg) => tech_group_energy_target c m per tg) idx;
  d ← MakeTechGroupDicts_rule c m;
  pc ← for_each (fun '(per, tg) => Enforce_Tech_Group_Power_Target c d m per tg) idx;
  ec ← for_each (fun '(per, tg) => Enforce_Tech_Group_Energy_Target c d m per tg) idx;
  Return {|
    power_target_values := pw;
    energy_target_values := en;
    dicts := d;
    power_constraints := pc;
    energy_constraints := ec;
  |}.

Definition build_model (fuel : nat) (definite_table psip_table : list target)
    (m : model) : outcome instance :=
  c ← define_components fuel definite_table psip_table m;
  construct c m.

(** ** A small scenario: one definite DistPV target, PSIP relaxed *)

Definition scenario_options : options := {|
  psip_force := false;
  psip_minimal_renewables := false;
  force_build := None;
  psip_relax_after := None;
  force_lng_tier := None;
|}.

Definition scenario_model : model := {|
  opts := scenario_options;
  USE_PSIP_PLAN := None;
  FUELS := [];
  existing_techs := [];
  ages := {[ "DistPV" := {| age_min := 25; age_max := 25; age_mean := 25 |} ]};
  PERIODS := [2020; 2025; 2030; 2035; 2040; 2045];
  GENERATION_PROJECTS := ["Oahu_DistPV"];
  gen_tech := fun _ => "DistPV";
  BuildGen := map (fun per => ("Oahu_DistPV", per))
                [2020; 2025; 2030; 2035; 2040; 2045];
  BuildStorageEnergy := [];
  gen_unit_size := [];
  gen_predetermined_cap := [];
  STORAGE_GENS := [];
  gen_storage_energy_to_power_ratio := fun _ => None;
|}.

Definition scenario_definite : list target :=
  [(2020, "DistPV", MW (1623 # 10))].

(** ** The expansion step on its own *)

(** The reconstruction loop applied to an event collection [events] held in
    a list object of its own, as [define_components] applies it to
    [tech_group_targets] when there is no existing capacity. *)
Definition expand (fuel : nat) (ages : gmap string age_stats)
    (last_period : Z) (events : list target) : outcome (list target) :=
  let '(tgts, h) := new_list events [] in
  '(h', _) ← rebuild_for fuel ages last_period tgts (contents h tgts) (h, ∅);
  Return (contents h' tgts).

(** ** Reference definitions used to state the properties *)

(** The successors of one event with service life [L] up to the horizon
    end [H]: years Y+L, Y+2L, ..., one for each k from 1 to (H-Y)/L. *)
Definition successors (H L : Z) (e : target) : list target :=
  map (fun k => (t_year e + k * L, t_group e, t_quantity e))
      (seqZ 1 ((H - t_year e) / L)).

(** The successors of an event whose group has a row in [ages]. *)
Definition successors_of (ages : gmap string age_stats) (H : Z) (e : target)
  : list target :=
  match ages !! t_group e with
  | Some row => successors H (age_mean row) e
  | None => []
  end.

(** [s] is the start of the window of period [P]: zero for the first
    period, otherwise the period just before [P]. *)
Definition window_start (periods : list Z) (P s : Z) : Prop :=
  (head periods = Some P ∧ s = 0) ∨
  (head periods ≠ Some P ∧ ∃ before after, periods = before ++ s :: P :: after).

(** An event of group [G] with life [L] counts towards period [P] whose
    window starts at [s]. *)
Definition contributes (s P : Z) (G : string) (L : Z) (e : Z * string * Q)
  : Prop :=
  e.1.2 = G ∧ s < e.1.1 ∧ e.1.1 <= P ∧ e.1.1 + L > P.

#[global] Instance contributes_dec s P G L e : Decision (contributes s P G L e).
Proof. unfold contributes. apply _. Defined.

(** Python's [sum]: left to right, starting from 0. *)
Definition total (qs : list Q) : Q := foldl Qplus 0%Q qs.

(** No build variable of group [tech_group] exists in period [per]. *)
Definition no_decision_variable (c : components) (m : model) (per : Z)
    (tech_group : string) (build_var : list (string * Z)) : Prop :=
  ∀ g, g ∈ GENERATION_PROJECTS m →
       tech_tech_group c !! gen_tech m g = Some tech_group →
       (g, per) ∉ build_var.

(** The predetermined capacity of a group in a period: the sum of
    [gen_predetermined_cap] over the projects of the group. *)
Definition predetermined_capacity (c : components) (m : model)
    (tech_group : string) (per : Z) : Q :=
  total (map snd
    (List.filter
       (fun '(g, p, _) =>
          bool_decide (tech_tech_group c !! gen_tech m g = Some tech_group)
          && (p =? per))
       (gen_predetermined_cap m))).

(** The constraint really binds the build variables. *)
Definition enforced_value (k : constraint) : option Q :=
  match k with
  | Constraint_Skip => None
  | Build_eq _ v | Build_ge _ v => Some v
  end.

(** Appending a whole list, one [append] at a time. *)
Definition append_all (r : loc) (xs : list target) (h : heap) : heap :=
  foldl (fun h x => append r x h) h xs.

(** The entries written into [tech_life] by the loop over [es]. *)
Definition record_lives (ages : gmap string age_stats) (es : list target)
    (tl : gmap string Z) : gmap string Z :=
  foldl (fun tl e =>
           match ages !! t_group e with
           | Some row => <[t_group e := age_mean row]> tl
           | None => tl
           end)
        tl es.

(** Enough fuel for the loop of one event: one test more than it has
    successors. *)
Definition fuel_for (ages : gmap string age_stats) (H : Z) (e : target) : nat :=
  S (length (successors_of ages H e)).

(** Enough fuel for every event of [es]. *)
Definition enough_fuel (ages : gmap string age_stats) (H : Z)
    (es : list target) : nat :=
  foldr (fun e n => Nat.max (fuel_for ages H e) n) O es.

(** The two assertions of lines 422 and 424 as propositions. *)
Definition no_existing_battery (m : model) : Prop :=
  ∀ y t q, (y, t, q) ∈ existing_techs m → is_battery t = false.

Definition uniform_ages (m : model) : Prop :=
  ∀ g row, ages m !! g = Some row → age_min row = age_max row.

(** The components of a run that returned (empty otherwise). *)
Definition components_of (o : outcome components) : components :=
  match o with
  | Return c => c
  | _ => {| psip := false;
            tech_group_targets_definite := [];
            tech_group_targets := [];
            techs_for_tech_group := [];
            tech_tech_group := ∅;
            tech_life := ∅;
            tech_group_power_targets := [];
            tech_group_energy_targets := [];
            last_definite_target := ∅ |}
  end.

Definition scenario_components : components :=
  components_of (define_components 3 scenario_definite [] scenario_model).

(** How a constraint binds the build: [build == target], [build >= target]
    or [Constraint.Skip]. *)
Inductive EnforcementMode : Type := Exact | LowerBound | Skip.

Definition mode_of (k : constraint) : EnforcementMode :=
  match k with
  | Constraint_Skip => Skip
  | Build_eq _ _ => Exact
  | Build_ge _ _ => LowerBound
  end.

(** The DistPV rows of a list of constraints: period, mode, bound. *)
Definition modes_of_group (tg : string)
    (ks : list (Z * string * constraint))
  : list (Z * EnforcementMode * option Q) :=
  map (fun '(per, _, k) => (per, mode_of k, enforced_value k))
      (List.filter (fun '(_, g, _) => String.eqb g tg) ks).

(** The same model with the environment variable set to [v]. *)
Definition with_env (v : string) (m : model) : model := {|
  opts := opts m;
  USE_PSIP_PLAN := Some v;
  FUELS := FUELS m;
  existing_techs := existing_techs m;
  ages := ages m;
  PERIODS := PERIODS m;
  GENERATION_PROJECTS := GENERATION_PROJECTS m;
  gen_tech := gen_tech m;
  BuildGen := BuildGen m;
  BuildStorageEnergy := BuildStorageEnergy m;
  gen_unit_size := gen_unit_size m;
  gen_predetermined_cap := gen_predetermined_cap m;
  STORAGE_GENS := STORAGE_GENS m;
  gen_storage_energy_to_power_ratio := gen_storage_energy_to_power_ratio m;
|}.

(** Three periods and one large-PV project with a life of 25 years. *)
Definition three_period_model : model := {|
  opts := scenario_options;
  USE_PSIP_PLAN := None;
  FUELS := [];
  existing_techs := [];
  ages := {[ "LargePV" := {| age_min := 25; age_max := 25; age_mean := 25 |} ]};
  PERIODS := [2020; 2025; 2030];
  GENERATION_PROJECTS := ["Oahu_CentralTrackingPV"];
  gen_tech := fun _ => "CentralTrackingPV";
  BuildGen := map (fun per => ("Oahu_CentralTrackingPV", per))
                [2020; 2025; 2030];
  BuildStorageEnergy := [];
  gen_unit_size := [];
  gen_predetermined_cap := [];
  STORAGE_GENS := [];
  gen_storage_energy_to_power_ratio := fun _ => None;
|}.

Definition three_period_components : components :=
  components_of
    (define_components 3 [(2022, "LargePV", MW 100)] [] three_period_model).

(** A storage project with a fixed energy-to-power ratio, 5 MW of
    predetermined capacity in 2020, and a forced build of its group. *)
Definition storage_model : model := {|
  opts := {| psip_force := false;
             psip_minimal_renewables := false;
             force_build := Some (2020, "FlowStorage", MW 100);
             psip_relax_after := None;
             force_lng_tier := None |};
  USE_PSIP_PLAN := None;
  FUELS := [];
  existing_techs := [(2020, "FlowStorage", 5%Q)];
  ages := {[ "FlowStorage" := {| age_min := 15; age_max := 15; age_mean := 15 |} ]};
  PERIODS := [2020; 2025];
  GENERATION_PROJECTS := ["Oahu_FlowStorage"];
  gen_tech := fun _ => "FlowStorage";
  BuildGen := [("Oahu_FlowStorage", 2020); ("Oahu_FlowStorage", 2025)];
  BuildStorageEnergy := [("Oahu_FlowStorage", 2020); ("Oahu_FlowStorage", 2025)];
  gen_unit_size := [];
  gen_predetermined_cap := [("Oahu_FlowStorage", 2020, 5%Q)];
  STORAGE_GENS := ["Oahu_FlowStorage"];
  gen_storage_energy_to_power_ratio := fun _ => Some 4%Q;
|}.

Definition storage_components : components :=
  components_of (define_components 3 [] [] storage_model).

(** The dicts of a [MakeTechGroupDicts] action that returned. *)
Definition dicts_of (o : outcome tech_group_dicts) : tech_group_dicts :=
  match o with
  | Return d => d
  | _ => {| tech_group_unit_size_dict := ∅;
            tech_group_predetermined_power_cap_dict := ∅;
            tech_group_predetermined_energy_cap_dict := ∅ |}
  end.

Definition storage_dicts : tech_group_dicts :=
  dicts_of (MakeTechGroupDicts_rule storage_components storage_model).



(** The energy of a target: MW times hours, for a tuple quantity only. *)
Definition energy_of (q : quantity) : option Q :=
  match q with
  | MW _ => None
  | MW_hours mw hours => Some (mw * hours)%Q
  end.

(** A target of group [G] in the window (s, P] that is not retired at P. *)
Definition in_window (s P : Z) (G : string) (L : Z) (e : target) : Prop :=
  t_group e = G ∧ s < t_year e ∧ t_year e <= P ∧ t_year e + L > P.

#[global] Instance in_window_dec s P G L e : Decision (in_window s P G L e).
Proof. unfold in_window. apply _. Defined.

(** The target given by --force-build, as a list. *)
Definition forced (m : model) : list target :=
  match force_build (opts m) with
  | Some build => [build]
  | None => []
  end.

(** * Properties *)

(** ** The heap *)

Section Heap.
Implicit Types (h : heap) (r : loc) (x : target) (l xs : list target).

Lemma length_append r x h : length (append r x h) = length h.
Proof. unfold append. apply length_alter. Qed.

Lemma contents_append_eq r x h :
  (r < length h)%nat → contents (append r x h) r = contents h r ++ [x].
Proof.
  intros Hr. unfold contents, append.
  rewrite list_lookup_alter_eq.
  destruct (lookup_lt_is_Some_2 h r Hr) as [l ->]. done.
Qed.

Lemma contents_append_ne r r' x h :
  r ≠ r' → contents (append r x h) r' = contents h r'.
Proof.
  intros Hne. unfold contents, append.
  by rewrite list_lookup_alter_ne.
Qed.

Lemma length_append_all r xs h : length (append_all r xs h) = length h.
Proof.
  revert h. induction xs as [|x xs IH]; intros h; simpl; [done|].
  unfold append_all in *. simpl. rewrite IH. apply length_append.
Qed.

Lemma contents_append_all_eq r xs h :
  (r < length h)%nat → contents (append_all r xs h) r = contents h r ++ xs.
Proof.
  revert h. induction xs as [|x xs IH]; intros h Hr.
  - simpl. by rewrite app_nil_r.
  - unfold append_all in *. simpl. rewrite IH.
    + rewrite contents_append_eq by done. by rewrite <- app_assoc.
    + by rewrite length_append.
Qed.

Lemma contents_append_all_ne r r' xs h :
  r ≠ r' → contents (append_all r xs h) r' = contents h r'.
Proof.
  intros Hne. revert h. induction xs as [|x xs IH]; intros h; [done|].
  unfold append_all in *. simpl. rewrite IH.
  by apply contents_append_ne.
Qed.

Lemma append_all_app r xs ys h :
  append_all r (xs ++ ys) h = append_all r ys (append_all r xs h).
Proof. unfold append_all. apply foldl_app. Qed.

Lemma contents_new_list l h :
  contents (new_list l h).2 (new_list l h).1 = l.
Proof.
  unfold contents, new_list. simpl.
  rewrite lookup_app_r by lia. by rewrite Nat.sub_diag.
Qed.

Lemma contents_new_list_old l h r :
  (r < length h)%nat → contents (new_list l h).2 r = contents h r.
Proof.
  intros Hr. unfold contents, new_list. simpl. by rewrite lookup_app_l.
Qed.
End Heap.

(** ** The reconstruction loops *)

Section Rebuild.
Variables (H : Z) (tgts : loc).

(** For a positive life, the loop test at counter [k] is [k <= (H-Y)/L]. *)
Lemma loop_test_div (Y L k : Z) :
  0 < L → (Y + k * L <= H ↔ k <= (H - Y) / L).
Proof.
  intros HL.
  pose proof (Z.div_mod (H - Y) L ltac:(lia)) as Hdm.
  pose proof (Z.mod_pos_bound (H - Y) L HL) as Hb.
  split; intros Hk; nia.
Qed.

Lemma rebuild_while_returns (Y L : Z) (t : string) (q : quantity) :
  0 < L →
  ∀ (n : nat) (k : Z) (h : heap) (fuel : nat),
    Z.to_nat ((H - Y) / L - k + 1) = n →
    (n < fuel)%nat →
    rebuild_while fuel Y L H t q tgts k h =
    Return (append_all tgts
              (map (fun j => (Y + j * L, t, q))
                   (seqZ k ((H - Y) / L - k + 1))) h).
Proof.
  intros HL. induction n as [|n IH]; intros k h fuel Hn Hfuel.
  - destruct fuel as [|fuel]; [lia|]. simpl.
    destruct (Z.leb_spec (Y + k * L) H) as [Hle|Hgt].
    + apply loop_test_div in Hle; [lia|done].
    + rewrite seqZ_nil by lia. done.
  - destruct fuel as [|fuel]; [lia|]. simpl.
    destruct (Z.leb_spec (Y + k * L) H) as [Hle|Hgt].
    + rewrite (IH (k + 1) _ fuel) by lia.
      rewrite (seqZ_cons k) by lia. simpl.
      do 3 f_equal. f_equal; lia.
    + assert (¬ k <= (H - Y) / L) by (rewrite <- loop_test_div; lia).
      lia.
Qed.

(** With a life that is not positive and a first candidate year within
    the horizon, the loop test never fails. *)
Lemma rebuild_while_diverges (Y L : Z) (t : string) (q : quantity) :
  L <= 0 → Y + L <= H →
  ∀ (fuel : nat) (k : Z) (h : heap),
    1 <= k → rebuild_while fuel Y L H t q tgts k h = OutOfFuel.
Proof.
  intros HL HY. induction fuel as [|fuel IH]; intros k h Hk; [done|].
  simpl. destruct (Z.leb_spec (Y + k * L) H) as [Hle|Hgt].
  - apply IH. lia.
  - nia.
Qed.

Lemma successors_of_known ages e row :
  ages !! t_group e = Some row →
  successors_of ages H e = successors H (age_mean row) e.
Proof. intros Hrow. unfold successors_of. by rewrite Hrow. Qed.

Lemma rebuild_for_returns (ages : gmap string age_stats) :
  ∀ (es : list target),
    (∀ e, e ∈ es → ∃ row, ages !! t_group e = Some row ∧ 0 < age_mean row) →
    ∀ (fuel : nat),
      (∀ e, e ∈ es → (fuel_for ages H e <= fuel)%nat) →
      ∀ (h : heap) (tl : gmap string Z),
        rebuild_for fuel ages H tgts es (h, tl) =
        Return (append_all tgts (flat_map (successors_of ages H) es) h,
                record_lives ages es tl).
Proof.
  induction es as [|[[Y t] q] es IH]; intros Hpos fuel Hfuel h tl; [done|].
  destruct (Hpos (Y, t, q)) as (row & Hrow & HL); [left|].
  pose proof (Hfuel (Y, t, q) ltac:(left)) as Hf.
  unfold fuel_for in Hf.
  cbn [rebuild_for flat_map].
  rewrite (successors_of_known _ _ _ Hrow) in Hf |- *.
  unfold successors in Hf |- *.
  rewrite length_map, length_seqZ in Hf.
  unfold t_year, t_group, t_quantity in *. simpl in *.
  rewrite Hrow.
  rewrite (rebuild_while_returns Y (age_mean row) t q HL
             (Z.to_nat ((H - Y) / age_mean row - 1 + 1)))
    by (try done; replace ((H - Y) / age_mean row - 1 + 1)
          with ((H - Y) / age_mean row) by lia; lia).
  simpl.
  rewrite IH.
  - rewrite append_all_app.
    replace ((H - Y) / age_mean row - 1 + 1)
      with ((H - Y) / age_mean row) by lia.
    unfold t_group. simpl. by rewrite Hrow.
  - intros e He. apply Hpos. by right.
  - intros e He. apply Hfuel. by right.
Qed.
End Rebuild.

Section Expansion.
Variables (ages : gmap string age_stats) (H : Z).

Lemma enough_fuel_ge (es : list target) (e : target) :
  e ∈ es → (fuel_for ages H e <= enough_fuel ages H es)%nat.
Proof.
  induction es as [|e' es IH]; intros He.
  - by apply elem_of_nil in He.
  - apply elem_of_cons in He as [->|He]; simpl; [lia|].
    specialize (IH He). lia.
Qed.

Lemma elem_of_successors (L : Z) (e x : target) :
  0 < L →
  x ∈ successors H L e ↔
  ∃ k, 1 <= k ∧ t_year e + k * L <= H
       ∧ x = (t_year e + k * L, t_group e, t_quantity e).
Proof.
  intros HL. unfold successors. rewrite list_elem_of_fmap. split.
  - intros (k & -> & Hk). apply elem_of_seqZ in Hk. exists k.
    split; [lia|]. split; [|done].
    apply loop_test_div; [done|lia].
  - intros (k & Hk1 & HkH & ->). exists k. split; [done|].
    apply elem_of_seqZ. apply loop_test_div in HkH; [lia|done].
Qed.

Lemma successors_nil (L : Z) (e : target) :
  0 < L → (successors H L e = [] ↔ H < t_year e + L).
Proof.
  intros HL. unfold successors.
  pose proof (loop_test_div H (t_year e) L 1 HL) as Ht.
  split.
  - intros Hnil. apply fmap_nil_inv in Hnil.
    destruct (Z.le_gt_cases 1 ((H - t_year e) / L)) as [Hle|Hgt]; [|lia].
    rewrite seqZ_cons in Hnil by lia. done.
  - intros Hlt. rewrite seqZ_nil; [done|]. lia.
Qed.

Lemma flat_map_nil {A B} (f : A → list B) (l : list A) :
  flat_map f l = [] ↔ ∀ a, a ∈ l → f a = [].
Proof.
  induction l as [|a l IH]; simpl.
  - split; [|done]. intros _ a Ha. by apply elem_of_nil in Ha.
  - split.
    + intros Happ. apply app_eq_nil in Happ as [Ha Hl].
      intros b Hb. apply elem_of_cons in Hb as [->|Hb]; [done|].
      by apply IH.
    + intros Hall. rewrite (Hall a) by left. simpl.
      apply IH. intros b Hb. apply Hall. by right.
Qed.

Lemma rebuild_for_terminates (tgts : loc) (es : list target) :
  (∀ e row, e ∈ es → ages !! t_group e = Some row → 0 < age_mean row) →
  ∀ (fuel : nat) (st : list (list target) * gmap string Z),
    (∀ e, e ∈ es → (fuel_for ages H e <= fuel)%nat) →
    terminates (rebuild_for fuel ages H tgts es st).
Proof.
  induction es as [|[[Y t] q] es IH]; intros Hpos fuel st Hfuel; [done|].
  cbn [rebuild_for].
  destruct (ages !! t) as [row|] eqn:Hrow; [|done].
  assert (0 < age_mean row) as HL by (eapply (Hpos (Y, t, q)); [left|done]).
  pose proof (Hfuel (Y, t, q) ltac:(left)) as Hf.
  unfold fuel_for in Hf. rewrite (successors_of_known H ages (Y, t, q) row Hrow) in Hf.
  unfold successors in Hf. rewrite length_map, length_seqZ in Hf.
  unfold t_year in Hf. simpl in Hf.
  rewrite (rebuild_while_returns H tgts Y (age_mean row) t q HL
             (Z.to_nat ((H - Y) / age_mean row - 1 + 1)))
    by (try done; replace ((H - Y) / age_mean row - 1 + 1)
          with ((H - Y) / age_mean row) by lia; lia).
  simpl. apply IH.
  - intros e r He. apply Hpos. by right.
  - intros e He. apply Hfuel. by right.
Qed.
End Expansion.

(** ** Termination of the reconstruction (C10) *)

(** C10. The loop over the rebuildable targets finishes for every input
    collection in which each group that has a row in [ages] has a positive
    mean life (a group without a row raises): any fuel from [enough_fuel]
    upwards is sufficient. Positivity is what makes the inner loop stop:
    for an event within the horizon whose life is zero or negative the loop
    test never fails, whatever the fuel. *)
Theorem rebuild_terminates (ages : gmap string age_stats) (H : Z)
    (tgts : loc) (es : list target) :
  (∀ e row, e ∈ es → ages !! t_group e = Some row → 0 < age_mean row) →
  (∀ (fuel : nat) (st : list (list target) * gmap string Z),
     (enough_fuel ages H es <= fuel)%nat →
     terminates (rebuild_for fuel ages H tgts es st))
  ∧ (∀ (Y L : Z) (t : string) (q : quantity) (h : list (list target))
       (fuel : nat),
       Y <= H → L <= 0 →
       rebuild_while fuel Y L H t q tgts 1 h = OutOfFuel).
Proof.
  intros Hpos. split.
  - intros fuel st Hfuel. apply rebuild_for_terminates; [done|].
    intros e He. pose proof (enough_fuel_ge ages H es e He). lia.
  - intros Y L t q h fuel HY HL.
    apply rebuild_while_diverges; lia.
Qed.

Lemma rebuild_terminates_witness :
  (∀ (fuel : nat) (st : list (list target) * gmap string Z),
     (enough_fuel (ages scenario_model) 2045 scenario_definite <= fuel)%nat →
     terminates (rebuild_for fuel (ages scenario_model) 2045 O
                   scenario_definite st))
  ∧ (∀ (Y L : Z) (t : string) (q : quantity) (h : list (list target))
       (fuel : nat),
       Y <= 2045 → L <= 0 →
       rebuild_while fuel Y L 2045 t q O 1 h = OutOfFuel).
Proof.
  apply (rebuild_terminates (ages scenario_model) 2045 O scenario_definite).
  intros e row He Hrow.
  apply list_elem_of_singleton in He. subst e.
  vm_compute in Hrow. injection Hrow as <-. reflexivity.
Defined.

(** ** Successors of a rebuildable target (C6) *)

Lemma assert_no_battery (m : model) :
  no_existing_battery m →
  existsb (fun '(_, t, _) => is_battery t) (existing_techs m) = false.
Proof.
  intros Hno. apply not_true_iff_false. intros Hex.
  apply existsb_exists in Hex as ([[y t] q] & Hin & Hb).
  apply list_elem_of_In in Hin. rewrite (Hno y t q Hin) in Hb. done.
Qed.

Lemma assert_uniform_ages (m : model) :
  uniform_ages m →
  forallb (fun row => age_min row.2 =? age_max row.2) (map_to_list (ages m))
  = true.
Proof.
  intros Hun. apply forallb_forall. intros [g row] Hin.
  apply list_elem_of_In, elem_of_map_to_list in Hin.
  apply Z.eqb_eq. simpl. by eapply Hun.
Qed.

(** C6. With horizon end [H] the start year of the last period, the
    reconstruction appends to [tech_group_targets], for every rebuildable
    event of year Y whose group has mean life L > 0, successors exactly at
    Y+L, Y+2L, ... while they do not exceed [H], each with the group and
    the quantity of the event, and none later than [H]. *)
Theorem rebuild_targets_successors (m : model) (tgts : loc)
    (h : list (list target)) (H : Z) :
  no_existing_battery m →
  uniform_ages m →
  last (PERIODS m) = Some H →
  (tgts < length h)%nat →
  (∀ e, e ∈ rebuildable_targets m tgts h →
        ∃ row, ages m !! t_group e = Some row ∧ 0 < age_mean row) →
  (∃ fuel h' tl,
     rebuild_targets fuel m tgts h = Return (h', tl) ∧
     contents h' tgts =
     contents h tgts
     ++ flat_map (successors_of (ages m) H) (rebuildable_targets m tgts h))
  ∧ (∀ e row, e ∈ rebuildable_targets m tgts h →
       ages m !! t_group e = Some row →
       ∀ x, x ∈ successors_of (ages m) H e ↔
            ∃ k, 1 <= k ∧ t_year e + k * age_mean row <= H
                 ∧ x = (t_year e + k * age_mean row, t_group e, t_quantity e)).
Proof.
  intros Hbat Hages Hlast Htgts Hpos. split.
  - exists (enough_fuel (ages m) H (rebuildable_targets m tgts h)).
    eexists _, _. unfold rebuild_targets.
    rewrite (assert_no_battery m Hbat), (assert_uniform_ages m Hages), Hlast.
    simpl. split.
    + apply rebuild_for_returns; [done|]. apply enough_fuel_ge.
    + by apply contents_append_all_eq.
  - intros e row He Hrow x.
    destruct (Hpos e He) as (row' & Hrow' & HL).
    assert (row' = row) as -> by congruence.
    rewrite (successors_of_known H (ages m) e row Hrow).
    by apply elem_of_successors.
Qed.

Lemma rebuild_targets_successors_witness :
  (∃ fuel h' tl,
     rebuild_targets fuel scenario_model O [scenario_definite] = Return (h', tl) ∧
     contents h' O =
     scenario_definite ++ [(2045, "DistPV", MW (1623 # 10))])
  ∧ (2045, "DistPV", MW (1623 # 10))
      ∈ successors_of (ages scenario_model) 2045 (2020, "DistPV", MW (1623 # 10)).
Proof.
  assert (∀ e, e ∈ rebuildable_targets scenario_model O [scenario_definite] →
               ∃ row, ages scenario_model !! t_group e = Some row
                      ∧ 0 < age_mean row) as Hpos.
  { intros e He. apply list_elem_of_singleton in He. subst e.
    eexists. split; [vm_compute; reflexivity|reflexivity]. }
  destruct (rebuild_targets_successors scenario_model O [scenario_definite] 2045)
    as [Hrun Hsucc].
  - intros y t q Hin. by apply elem_of_nil in Hin.
  - intros g row Hrow. unfold scenario_model, ages in Hrow.
    apply lookup_singleton_Some in Hrow as [_ <-]. reflexivity.
  - reflexivity.
  - simpl. lia.
  - exact Hpos.
  - split; [exact Hrun|].
    eapply Hsucc.
    + apply list_elem_of_singleton. reflexivity.
    + vm_compute. reflexivity.
    + exists 1. split; [lia|]. split; [unfold t_year; simpl; lia|reflexivity].
Defined.

(** ** Applying the expansion to a collection (C5) *)

Lemma expand_returns (ages : gmap string age_stats) (H : Z) (E : list target) :
  (∀ e, e ∈ E → ∃ row, ages !! t_group e = Some row ∧ 0 < age_mean row) →
  ∀ fuel, (enough_fuel ages H E <= fuel)%nat →
    expand fuel ages H E = Return (E ++ flat_map (successors_of ages H) E).
Proof.
  intros Hpos fuel Hfuel. unfold expand. simpl.
  change (contents [E] 0) with E.
  rewrite rebuild_for_returns; [|done|].
  - simpl. f_equal.
    by rewrite contents_append_all_eq by (simpl; lia).
  - intros e He. pose proof (enough_fuel_ge ages H E e He). lia.
Qed.

(** C5, as the code has it. One application of the expansion to a
    collection [E] (every group known, with a positive life) returns [E]
    followed by the successors of each of its events. It adds no event, and
    so leaves every list of targets derived from the collection unchanged,
    exactly when no event of [E] has year + life <= horizon end. *)
Theorem expand_adds_successors (ages : gmap string age_stats) (H : Z)
    (E : list target) :
  (∀ e, e ∈ E → ∃ row, ages !! t_group e = Some row ∧ 0 < age_mean row) →
  ∃ fuel E',
    expand fuel ages H E = Return E' ∧
    E' = E ++ flat_map (successors_of ages H) E ∧
    (E' = E ↔
     ∀ e row, e ∈ E → ages !! t_group e = Some row →
              H < t_year e + age_mean row) ∧
    (E' = E →
     make_power_targets E' = make_power_targets E ∧
     make_energy_targets E' = make_energy_targets E).
Proof.
  intros Hpos. exists (enough_fuel ages H E). eexists.
  split; [by apply expand_returns|]. split; [done|]. split.
  - split.
    + intros Heq.
      assert (flat_map (successors_of ages H) E = []) as Hnil
        by (apply (app_inv_head E); by rewrite app_nil_r).
      intros e row He Hrow.
      destruct (Hpos e He) as (row' & Hrow' & HL).
      assert (row' = row) as -> by congruence.
      apply (successors_nil H (age_mean row) e HL).
      rewrite <- (successors_of_known H ages e row Hrow).
      by apply (proj1 (flat_map_nil _ _) Hnil).
    + intros Hall. rewrite <- (app_nil_r E) at 3. f_equal.
      apply flat_map_nil. intros e He.
      destruct (Hpos e He) as (row & Hrow & HL).
      rewrite (successors_of_known H ages e row Hrow).
      apply successors_nil; [done|]. by eapply Hall.
  - intros ->. done.
Qed.

Lemma expand_adds_successors_witness :
  ∃ fuel E',
    expand fuel (ages scenario_model) 2045 scenario_definite = Return E' ∧
    E' = scenario_definite
         ++ flat_map (successors_of (ages scenario_model) 2045) scenario_definite ∧
    (E' = scenario_definite ↔
     ∀ e row, e ∈ scenario_definite →
              ages scenario_model !! t_group e = Some row →
              2045 < t_year e + age_mean row) ∧
    (E' = scenario_definite →
     make_power_targets E' = make_power_targets scenario_definite ∧
     make_energy_targets E' = make_energy_targets scenario_definite).
Proof.
  apply (expand_adds_successors (ages scenario_model) 2045 scenario_definite).
  intros e He. apply list_elem_of_singleton in He. subst e.
  eexists. split; [vm_compute; reflexivity|reflexivity].
Defined.

(** C5 as stated fails: expanding the already expanded scenario, a second
    2045 event is appended. *)
Lemma expand_not_idempotent :
  ¬ (∀ (ages : gmap string age_stats) (H : Z) (E E1 E2 : list target)
       (fuel1 fuel2 : nat),
       (∀ e, e ∈ E → t_year e <= H) →
       expand fuel1 ages H E = Return E1 →
       expand fuel2 ages H E1 = Return E2 →
       E2 = E1).
Proof.
  intros Hidem.
  specialize (Hidem (ages scenario_model) 2045 scenario_definite
                [(2020, "DistPV", MW (1623 # 10)); (2045, "DistPV", MW (1623 # 10))]
                [(2020, "DistPV", MW (1623 # 10)); (2045, "DistPV", MW (1623 # 10));
                 (2045, "DistPV", MW (1623 # 10))]
                3%nat 3%nat).
  assert (∀ e, e ∈ scenario_definite → t_year e <= 2045) as Hin.
  { intros e He. apply list_elem_of_singleton in He. subst e.
    unfold t_year. simpl. lia. }
  specialize (Hidem Hin ltac:(vm_compute; reflexivity)
                ltac:(vm_compute; reflexivity)).
  discriminate Hidem.
Qed.

(** ** The aggregation window (C1, C3) *)

Section Window.
Implicit Types (periods before after : list Z) (P s : Z).

Lemma PERIODS_ord_middle before s P after :
  NoDup (before ++ s :: P :: after) →
  PERIODS_ord (before ++ s :: P :: after) P = Some (S (length before)).
Proof.
  induction before as [|b before IH]; intros Hnd; simpl.
  - apply NoDup_cons in Hnd as [Hs _].
    destruct (Z.eqb_spec P s) as [->|_]; [set_solver|].
    by rewrite Z.eqb_refl.
  - simpl in Hnd. apply NoDup_cons in Hnd as [Hb Hnd].
    destruct (Z.eqb_spec P b) as [->|_]; [set_solver|].
    by rewrite IH.
Qed.

Lemma PERIODS_prev_middle before s P after :
  NoDup (before ++ s :: P :: after) →
  PERIODS_prev (before ++ s :: P :: after) P = Return s.
Proof.
  intros Hnd. unfold PERIODS_prev.
  rewrite PERIODS_ord_middle by done.
  by rewrite list_lookup_middle.
Qed.

Lemma window_start_exists periods P :
  P ∈ periods → ∃ s, window_start periods P s.
Proof.
  intros HP. destruct (decide (head periods = Some P)) as [Hhd|Hhd].
  - exists 0. by left.
  - apply list_elem_of_split in HP as (l1 & l2 & ->).
    destruct l1 as [|a l1 _] using rev_ind; [done|].
    exists a. right. split; [done|].
    exists l1, l2. by rewrite <- app_assoc.
Qed.

Lemma window_start_computed periods P s :
  NoDup periods → window_start periods P s →
  (first ← PERIODS_first periods;
   if P =? first then Return 0 else PERIODS_prev periods P) = Return s.
Proof.
  intros Hnd [[Hhd ->]|[Hhd (before & after & ->)]].
  - destruct periods as [|p periods]; [done|]. simpl in *.
    injection Hhd as ->. by rewrite Z.eqb_refl.
  - destruct before as [|b before]; simpl in *.
    + destruct (Z.eqb_spec P s) as [->|_]; [done|].
      by apply (PERIODS_prev_middle []).
    + destruct (Z.eqb_spec P b) as [->|_]; [done|].
      by apply (PERIODS_prev_middle (b :: before)).
Qed.
End Window.

Lemma sum_targets_window (tl : gmap string Z) (G : string) (s P L : Z)
    (targets : list (Z * string * Q)) :
  (∀ e, e ∈ targets → e.1.2 = G → tl !! G = Some L) →
  ∀ acc,
    sum_targets tl G s P targets acc =
    Return (foldl Qplus acc
              (map snd (filter (contributes s P G L) targets))).
Proof.
  induction targets as [|[[y t] q] targets IH]; intros Hlife acc; [done|].
  assert (∀ e, e ∈ targets → e.1.2 = G → tl !! G = Some L) as Hlife'
    by (intros e He; apply Hlife; by right).
  cbn [sum_targets].
  destruct (String.eqb_spec t G) as [->|Hne]; simpl.
  - rewrite (Hlife (y, G, q)) by (done || left).
    destruct (Z.ltb_spec s y) as [Hs|Hs]; simpl;
      [destruct (Z.leb_spec y P) as [HP|HP]; simpl;
        [destruct (Z.gtb_spec (y + L) P) as [HL|HL]|]|].
    + rewrite filter_cons_True by (unfold contributes; simpl; repeat split; (done || lia)).
      simpl. by apply IH.
    + rewrite filter_cons_False
        by (unfold contributes; simpl; intros (_ & ? & ? & ?); lia).
      by apply IH.
    + rewrite filter_cons_False
        by (unfold contributes; simpl; intros (_ & ? & ? & ?); lia).
      by apply IH.
    + rewrite filter_cons_False
        by (unfold contributes; simpl; intros (_ & ? & ? & ?); lia).
      by apply IH.
  - rewrite filter_cons_False by (unfold contributes; simpl; tauto).
    by apply IH.
Qed.

(** C1. For every period [P] of the model and every group [G] (with life
    [L] if any of its events is looked up), the power target is the sum of
    the power quantities of exactly the events of group [G] with
    start < year <= P and year + L > P, where start is 0 for the first
    period and the previous period otherwise. *)
Theorem power_target_window_sum (c : components) (m : model) (P : Z)
    (G : string) (L : Z) :
  NoDup (PERIODS m) →
  P ∈ PERIODS m →
  (∀ e, e ∈ tech_group_power_targets c → e.1.2 = G →
        tech_life c !! G = Some L) →
  (∃ s, window_start (PERIODS m) P s) ∧
  (∀ s, window_start (PERIODS m) P s →
     tech_group_power_target c m P G =
     Return (total (map snd (filter (contributes s P G L)
                               (tech_group_power_targets c))))).
Proof.
  intros Hnd HP Hlife. split; [by apply window_start_exists|].
  intros s Hs. unfold tech_group_power_target, tech_group_target.
  pose proof (window_start_computed _ _ _ Hnd Hs) as Hstart.
  destruct (PERIODS_first (PERIODS m)) as [first| |]; simpl in *; try done.
  rewrite Hstart. simpl. by apply sum_targets_window.
Qed.

Lemma power_target_window_sum_witness :
  (∃ s, window_start (PERIODS scenario_model) 2045 s) ∧
  (∀ s, window_start (PERIODS scenario_model) 2045 s →
     tech_group_power_target scenario_components scenario_model 2045 "DistPV" =
     Return (total (map snd (filter (contributes s 2045 "DistPV" 25)
                               (tech_group_power_targets scenario_components))))).
Proof.
  apply (power_target_window_sum scenario_components scenario_model 2045
           "DistPV" 25).
  - apply (bool_decide_unpack _). vm_compute. reflexivity.
  - apply (bool_decide_unpack _). vm_compute. reflexivity.
  - intros e He Hg. vm_compute. reflexivity.
Defined.

(** C3, as the code has it. With periods 2020, 2025, 2030 and a life of 25
    years, an event of the year 2022 counts towards the 2025 target only:
    the 2020 target and the 2030 target do not include it, since 2022 lies
    outside the windows (0, 2020] and (2025, 2030]. *)
Theorem event_2022_counts_in_2025_only (c : components) (m : model)
    (G : string) (q : Q) :
  PERIODS m = [2020; 2025; 2030] →
  tech_life c !! G = Some 25 →
  tech_group_target c m 2025 G [(2022, G, q)] = Return (0 + q)%Q
  ∧ tech_group_target c m 2020 G [(2022, G, q)] = Return 0%Q
  ∧ tech_group_target c m 2030 G [(2022, G, q)] = Return 0%Q.
Proof.
  intros HP Hlife. unfold tech_group_target. rewrite HP. simpl.
  rewrite String.eqb_refl. simpl. rewrite Hlife. done.
Qed.

Lemma event_2022_counts_in_2025_only_witness :
  tech_group_target three_period_components three_period_model 2025
    "LargePV" [(2022, "LargePV", 100%Q)] = Return (0 + 100)%Q
  ∧ tech_group_target three_period_components three_period_model 2020
      "LargePV" [(2022, "LargePV", 100%Q)] = Return 0%Q
  ∧ tech_group_target three_period_components three_period_model 2030
      "LargePV" [(2022, "LargePV", 100%Q)] = Return 0%Q.
Proof.
  apply (event_2022_counts_in_2025_only three_period_components
           three_period_model "LargePV" 100%Q).
  - reflexivity.
  - vm_compute. reflexivity.
Defined.

(** C3 as stated fails: the 2030 target does not include the 2022 event. *)
Lemma event_2022_not_in_2030_target :
  ¬ (tech_group_target three_period_components three_period_model 2025
       "LargePV" [(2022, "LargePV", 100%Q)] = Return (0 + 100)%Q
     ∧ tech_group_target three_period_components three_period_model 2020
         "LargePV" [(2022, "LargePV", 100%Q)] = Return 0%Q
     ∧ tech_group_target three_period_components three_period_model 2030
         "LargePV" [(2022, "LargePV", 100%Q)] = Return (0 + 100)%Q).
Proof.
  intros (_ & _ & H2030). vm_compute in H2030. discriminate H2030.
Qed.

(** ** No build variable: skip or fail (C4) *)

Lemma filter_none {A} (f : A → bool) (l : list A) :
  (∀ x, x ∈ l → f x = false) → List.filter f l = [].
Proof.
  induction l as [|a l IH]; intros Hall; [done|]. simpl.
  rewrite (Hall a) by left. apply IH. intros x Hx. apply Hall. by right.
Qed.

Lemma no_decision_variable_build (c : components) (m : model) (per : Z)
    (tech_group : string) (build_var : list (string * Z)) :
  no_decision_variable c m per tech_group build_var →
  matching_build_vars c m per tech_group build_var = [].
Proof.
  intros Hno. unfold matching_build_vars.
  rewrite filter_none; [done|]. intros g Hg.
  destruct (tech_tech_group c !! gen_tech m g) as [tg|] eqn:Htg; [|done].
  destruct (String.eqb_spec tg tech_group) as [->|_]; [|done]. simpl.
  apply bool_decide_eq_false. by apply Hno.
Qed.

(** C4. When no build variable of the group exists in the period, the rule
    returns [Constraint.Skip] if the target it is given (the period target
    plus the predetermined capacity) is zero and raises otherwise, whatever
    the PSIP flag, the relaxation year, the last definite year and the
    minimal-renewables flag are. *)
Theorem no_variable_skip_or_error (c : components) (m : model) (per : Z)
    (tech_group : string) (build_var : list (string * Z)) (target : Q) :
  no_decision_variable c m per tech_group build_var →
  ((target == 0)%Q →
     tech_group_target_rule c m per tech_group build_var target
     = Return Constraint_Skip)
  ∧ (¬ (target == 0)%Q →
     tech_group_target_rule c m per tech_group build_var target
     = Raise (ValueError msg_no_projects)).
Proof.
  intros Hno. unfold tech_group_target_rule.
  rewrite (no_decision_variable_build _ _ _ _ _ Hno).
  split; intros Ht.
  - apply Qeq_bool_iff in Ht. by rewrite Ht.
  - destruct (Qeq_bool target 0) eqn:Hb; [|done].
    apply Qeq_bool_iff in Hb. done.
Qed.

Lemma no_variable_skip_or_error_witness :
  ((0 == 0)%Q →
     tech_group_target_rule scenario_components scenario_model 2020 "LargePV"
       (BuildGen scenario_model) 0%Q
     = Return Constraint_Skip)
  ∧ (¬ (0 == 0)%Q →
     tech_group_target_rule scenario_components scenario_model 2020 "LargePV"
       (BuildGen scenario_model) 0%Q
     = Raise (ValueError msg_no_projects)).
Proof.
  apply (no_variable_skip_or_error scenario_components scenario_model 2020
           "LargePV" (BuildGen scenario_model) 0%Q).
  intros g Hg Htg. vm_compute in Htg. discriminate Htg.
Defined.

(** ** Merging the tables (C7) *)

(** C7. The merged collection is the definite list followed by the PSIP
    events that are kept: none without PSIP, all of them with PSIP and no
    relaxation year, and with a relaxation year exactly those whose year
    does not exceed it. Without PSIP the merged collection is the very list
    object of the definite targets. *)
Theorem merged_targets_contents (psip : bool) (psip_relax_after : option Q)
    (psip_table : list target) (definite : loc) (h : list (list target)) :
  ∃ plan,
    contents (merge_targets psip psip_relax_after psip_table definite h).2
             (merge_targets psip psip_relax_after psip_table definite h).1
    = contents h definite ++ plan
    ∧ plan = List.filter
               (fun e => psip && match psip_relax_after with
                                 | Some r => Qle_bool (inject_Z (t_year e)) r
                                 | None => true
                                 end)
               psip_table
    ∧ (∀ e, e ∈ plan ↔
            psip = true ∧ e ∈ psip_table ∧
            ∀ r, psip_relax_after = Some r → (inject_Z (t_year e) <= r)%Q)
    ∧ (psip = false →
       (merge_targets psip psip_relax_after psip_table definite h).1 = definite).
Proof.
  eexists. split; [|split; [reflexivity|split]].
  - unfold merge_targets. destruct psip; cbv beta iota zeta.
    + rewrite (contents_new_list _ h). simpl. f_equal.
      destruct psip_relax_after as [r|]; [done|].
      induction psip_table as [|e l IH]; [done|]. simpl. by f_equal.
    + rewrite filter_none by done. by rewrite app_nil_r.
  - intros e. rewrite list_elem_of_In, filter_In, <- list_elem_of_In.
    rewrite andb_true_iff. split.
    + intros (He & -> & Hr). split; [done|]. split; [done|].
      intros r ->. by apply Qle_bool_iff.
    + intros (-> & He & Hr). split; [done|]. split; [done|].
      destruct psip_relax_after as [r|]; [|done].
      apply Qle_bool_iff. by apply Hr.
  - intros ->. done.
Qed.

(** ** The environment override (C9) *)

Lemma str_in_elem (s : string) (l : list string) :
  str_in s l = true ↔ s ∈ l.
Proof.
  unfold str_in. rewrite existsb_exists, list_elem_of_In. split.
  - intros (x & Hx & Heq). apply String.eqb_eq in Heq. by subst.
  - intros Hs. exists s. split; [done|]. apply String.eqb_refl.
Qed.

Lemma str_in_not_elem (s : string) (l : list string) :
  str_in s l = false ↔ s ∉ l.
Proof. rewrite <- str_in_elem. by destruct (str_in s l). Qed.

(** C9. When USE_PSIP_PLAN is set: a value that, lowered, is neither a true
    spelling nor a false spelling makes [define_components] raise the
    ValueError for every fuel, every table and every other input, so
    nothing else is computed; a true spelling gives PSIP on and a false
    spelling PSIP off, whatever the command-line flag. *)
Theorem env_override_of_psip_flag (fuel : nat)
    (definite_table psip_table : list target) (m : model) (v : string) :
  USE_PSIP_PLAN m = Some v →
  (lower v ∉ psip_true_spellings → lower v ∉ psip_false_spellings →
     define_components fuel definite_table psip_table m
     = Raise (ValueError msg_unrecognized_env)
     ∧ build_model fuel definite_table psip_table m
       = Raise (ValueError msg_unrecognized_env))
  ∧ (lower v ∈ psip_true_spellings →
     resolve_psip (USE_PSIP_PLAN m) (psip_force (opts m)) = Return true)
  ∧ (lower v ∈ psip_false_spellings →
     resolve_psip (USE_PSIP_PLAN m) (psip_force (opts m)) = Return false).
Proof.
  intros Henv. split; [|split].
  - intros Ht Hf. apply str_in_not_elem in Ht, Hf.
    unfold build_model, define_components, resolve_psip.
    rewrite Henv, Ht, Hf. done.
  - intros Ht. apply str_in_elem in Ht.
    unfold resolve_psip. by rewrite Henv, Ht.
  - intros Hf. unfold resolve_psip. rewrite Henv.
    assert (str_in (lower v) psip_true_spellings = false) as ->.
    { unfold psip_false_spellings in Hf.
      repeat (apply elem_of_cons in Hf as [->|Hf]); try done.
      by apply elem_of_nil in Hf. }
    apply str_in_elem in Hf. by rewrite Hf.
Qed.

Lemma env_override_of_psip_flag_witness :
  (lower "Maybe" ∉ psip_true_spellings → lower "Maybe" ∉ psip_false_spellings →
     define_components O scenario_definite [] (with_env "Maybe" scenario_model)
     = Raise (ValueError msg_unrecognized_env)
     ∧ build_model O scenario_definite [] (with_env "Maybe" scenario_model)
       = Raise (ValueError msg_unrecognized_env))
  ∧ (lower "Maybe" ∈ psip_true_spellings →
     resolve_psip (USE_PSIP_PLAN (with_env "Maybe" scenario_model))
       (psip_force (opts (with_env "Maybe" scenario_model))) = Return true)
  ∧ (lower "Maybe" ∈ psip_false_spellings →
     resolve_psip (USE_PSIP_PLAN (with_env "Maybe" scenario_model))
       (psip_force (opts (with_env "Maybe" scenario_model))) = Return false).
Proof.
  apply (env_override_of_psip_flag O scenario_definite []
           (with_env "Maybe" scenario_model) "Maybe").
  reflexivity.
Defined.

(** ** The bound that is enforced (C8) *)

Lemma rule_enforces_target (c : components) (m : model) (per : Z)
    (tech_group : string) (build_var : list (string * Z)) (target : Q)
    (k : constraint) (v : Q) :
  tech_group_target_rule c m per tech_group build_var target = Return k →
  enforced_value k = Some v →
  v = target.
Proof.
  unfold tech_group_target_rule.
  destruct (matching_build_vars c m per tech_group build_var) as [|b bs].
  - destruct (Qeq_bool target 0); intros [= <-]; done.
  - repeat match goal with
           | |- context [if ?b then _ else _] => destruct b
           end; intros [= <-] [= <-]; done.
Qed.

Lemma predetermined_energy_loop_keeps (c : components) (m : model)
    (items : list (string * Z * Q)) (d d' : gmap (string * Z) Q) :
  predetermined_energy_loop c m items d = Return d' → d' = d.
Proof.
  induction items as [|[[g per] cap] items IH]; simpl.
  - by intros [= <-].
  - destruct (in_FORECASTED_TECHS c (gen_tech m g) && str_in g (STORAGE_GENS m));
      [destruct (gen_storage_energy_to_power_ratio m g)|]; try done.
Qed.

Lemma predetermined_power_lookup (c : components) (m : model)
    (tg : string) (per : Z) (items : list (string * Z * Q)) :
  ∀ d : gmap (string * Z) Q,
    default 0%Q
      (foldl (fun d '(g, p, cap) =>
                match tech_tech_group c !! gen_tech m g with
                | Some tech_group =>
                    <[(tech_group, p) :=
                        (default 0%Q (d !! (tech_group, p)) + cap)%Q]> d
                | None => d
                end) d items !! (tg, per))
    = foldl Qplus (default 0%Q (d !! (tg, per)))
        (map snd
           (List.filter
              (fun '(g, p, _) =>
                 bool_decide (tech_tech_group c !! gen_tech m g = Some tg)
                 && (p =? per))
              items)).
Proof.
  induction items as [|[[g p] cap] items IH]; intros d; [done|].
  cbn [foldl List.filter]. rewrite IH. clear IH.
  destruct (tech_tech_group c !! gen_tech m g) as [tg'|] eqn:Htg.
  - destruct (decide (tg' = tg)) as [->|Hne].
    + rewrite bool_decide_eq_true_2 by done. simpl.
      destruct (Z.eqb_spec p per) as [->|Hp].
      * simpl. by rewrite lookup_insert_eq.
      * rewrite lookup_insert_ne by congruence. done.
    + rewrite bool_decide_eq_false_2 by congruence. simpl.
      rewrite lookup_insert_ne by congruence. done.
  - rewrite bool_decide_eq_false_2 by done. done.
Qed.

(** C8, as the code has it. For a pair whose constraint binds the build
    (an equality or a lower bound), the power bound is the period power
    target plus the predetermined capacity of the group's projects in that
    period, and the energy bound is the period energy target plus zero: no
    predetermined energy capacity is ever recorded. *)
Theorem enforced_bounds (c : components) (m : model) (d : tech_group_dicts)
    (per : Z) (tech_group : string) :
  MakeTechGroupDicts_rule c m = Return d →
  (∀ k v,
     Enforce_Tech_Group_Power_Target c d m per tech_group = Return k →
     enforced_value k = Some v →
     ∃ power_target,
       tech_group_power_target c m per tech_group = Return power_target ∧
       v = (power_target + predetermined_capacity c m tech_group per)%Q)
  ∧ (∀ k v,
     Enforce_Tech_Group_Energy_Target c d m per tech_group = Return k →
     enforced_value k = Some v →
     ∃ energy_target,
       tech_group_energy_target c m per tech_group = Return energy_target ∧
       v = (energy_target + 0)%Q).
Proof.
  intros Hd. unfold MakeTechGroupDicts_rule in Hd.
  destruct (unit_sizes_loop c m (gen_unit_size m) ∅) as [us| |];
    simpl in Hd; try done.
  destruct (predetermined_energy_loop c m (gen_predetermined_cap m) ∅)
    as [en| |] eqn:Hen; simpl in Hd; try done.
  apply predetermined_energy_loop_keeps in Hen. subst en.
  injection Hd as <-. split; intros k v Hk Hv.
  - unfold Enforce_Tech_Group_Power_Target in Hk.
    destruct (tech_group_power_target c m per tech_group) as [pt| |];
      simpl in Hk; try done.
    exists pt. split; [done|].
    rewrite (rule_enforces_target _ _ _ _ _ _ _ _ Hk Hv).
    f_equal. unfold predetermined_power_loop, predetermined_capacity, total.
    by rewrite predetermined_power_lookup.
  - unfold Enforce_Tech_Group_Energy_Target in Hk.
    destruct (tech_group_energy_target c m per tech_group) as [et| |];
      simpl in Hk; try done.
    exists et. split; [done|].
    by rewrite (rule_enforces_target _ _ _ _ _ _ _ _ Hk Hv).
Qed.

Lemma enforced_bounds_witness :
  (∀ k v,
     Enforce_Tech_Group_Power_Target storage_components storage_dicts
       storage_model 2020 "FlowStorage" = Return k →
     enforced_value k = Some v →
     ∃ power_target,
       tech_group_power_target storage_components storage_model 2020
         "FlowStorage" = Return power_target ∧
       v = (power_target
            + predetermined_capacity storage_components storage_model
                "FlowStorage" 2020)%Q)
  ∧ (∀ k v,
     Enforce_Tech_Group_Energy_Target storage_components storage_dicts
       storage_model 2020 "FlowStorage" = Return k →
     enforced_value k = Some v →
     ∃ energy_target,
       tech_group_energy_target storage_components storage_model 2020
         "FlowStorage" = Return energy_target ∧
       v = (energy_target + 0)%Q).
Proof.
  apply (enforced_bounds storage_components storage_model storage_dicts 2020
           "FlowStorage").
  vm_compute. reflexivity.
Defined.

(** C8 as stated fails for energy: with 5 MW of predetermined capacity in
    2020, the energy bound of the group is the energy target alone. *)
Lemma energy_bound_ignores_predetermined :
  ¬ (∀ k v,
       Enforce_Tech_Group_Energy_Target storage_components storage_dicts
         storage_model 2020 "FlowStorage" = Return k →
       enforced_value k = Some v →
       ∃ energy_target,
         tech_group_energy_target storage_components storage_model 2020
           "FlowStorage" = Return energy_target ∧
         (v == energy_target
               + predetermined_capacity storage_components storage_model
                   "FlowStorage" 2020)%Q).
Proof.
  intros Hclaim.
  destruct (Hclaim (Build_eq [("Oahu_FlowStorage", 2020)] (0 + 0)%Q) (0 + 0)%Q)
    as (et & Het & Hv).
  - vm_compute. reflexivity.
  - reflexivity.
  - vm_compute in Het. injection Het as <-.
    vm_compute in Hv. discriminate Hv.
Qed.

(** The power bound of the same pair does include the 5 MW. *)
Example storage_power_bound :
  Enforce_Tech_Group_Power_Target storage_components storage_dicts
    storage_model 2020 "FlowStorage"
  = Return (Build_eq [("Oahu_FlowStorage", 2020)] (0 + 100 + (0 + 5))%Q).
Proof. vm_compute. reflexivity. Qed.

(** ** The definite window and the rebuilt targets (C2) *)

(** Whenever [define_components] returns, the list of definite targets and
    the list of all targets are one object: the rebuilt targets appended to
    the latter are in the former too. *)
Lemma definite_list_holds_rebuilds (fuel : nat)
    (definite_table psip_table : list target) (m : model) (c : components) :
  define_components fuel definite_table psip_table m = Return c →
  psip c = false ∧ tech_group_targets_definite c = tech_group_targets c.
Proof.
  unfold define_components.
  destruct (resolve_psip (USE_PSIP_PLAN m) (psip_force (opts m)))
    as [[|]| |]; simpl; try done.
  - destruct (str_in "LNG" (FUELS m)
              && bool_decide (default [] (force_lng_tier (opts m)) ≠ ["none"]));
      simpl; try done.
    destruct (rebuild_targets fuel m _ _) as [[h tl]| |]; simpl; done.
  - destruct (rebuild_targets fuel m _ _) as [[h tl]| |]; simpl; try done.
    by intros [= <-].
Qed.

(** C2, the scenario on the code. One definite DistPV target of 162.3 MW in
    2020, life 25, periods 2020..2045, PSIP off. The rebuilt 2045 target is
    appended to the list of definite targets, the last definite year of
    DistPV becomes 2045 instead of 2020, and every period, the intermediate
    ones included, gets an exact constraint. *)
Theorem scenario_lock_in_reaches_2045 :
  ∃ c i,
    define_components 3 scenario_definite [] scenario_model = Return c
    ∧ tech_group_targets_definite c
      = [(2020, "DistPV", MW (1623 # 10)); (2045, "DistPV", MW (1623 # 10))]
    ∧ last_definite_target c !! "DistPV" = Some 2045
    ∧ construct c scenario_model = Return i
    ∧ modes_of_group "DistPV" (power_constraints i)
      = [ (2020, Exact, Some (1623 # 10));
          (2025, Exact, Some (0 # 1));
          (2030, Exact, Some (0 # 1));
          (2035, Exact, Some (0 # 1));
          (2040, Exact, Some (0 # 1));
          (2045, Exact, Some (1623 # 10)) ].
Proof.
  eexists _, _.
  split; [vm_compute; reflexivity|].
  split; [vm_compute; reflexivity|].
  split; [vm_compute; reflexivity|].
  split; [vm_compute; reflexivity|].
  vm_compute. reflexivity.
Qed.

(** ** What every run that returns guarantees *)

Lemma rebuild_while_appends (fuel : nat) (Y L H : Z) (t : string)
    (q : quantity) (r : loc) :
  ∀ (k : Z) (h h' : list (list target)),
    rebuild_while fuel Y L H t q r k h = Return h' →
    ∃ xs, h' = append_all r xs h ∧ ∀ x, x ∈ xs → t_group x = t.
Proof.
  induction fuel as [|fuel IH]; intros k h h'; simpl; [done|].
  destruct (Y + k * L <=? H).
  - intros Hrun. apply IH in Hrun as (xs & -> & Hxs).
    exists ((Y + k * L, t, q) :: xs). split; [done|].
    intros x Hx. apply elem_of_cons in Hx as [->|Hx]; [done|]. by apply Hxs.
  - intros [= <-]. exists []. split; [done|].
    intros x Hx. by apply elem_of_nil in Hx.
Qed.

Lemma record_lives_keeps (ages : gmap string age_stats) (g : string)
    (row : age_stats) (es : list target) :
  ages !! g = Some row →
  ∀ tl : gmap string Z,
    tl !! g = Some (age_mean row) →
    record_lives ages es tl !! g = Some (age_mean row).
Proof.
  intros Hrow. induction es as [|e es IH]; intros tl Htl; [done|].
  unfold record_lives in *. simpl. apply IH.
  destruct (ages !! t_group e) as [row'|] eqn:Hrow'; [|done].
  destruct (decide (t_group e = g)) as [Heq|Hne].
  - rewrite Heq in *. rewrite lookup_insert_eq. congruence.
  - by rewrite lookup_insert_ne.
Qed.

Lemma record_lives_lookup (ages : gmap string age_stats) (es : list target)
    (e : target) (row : age_stats) :
  e ∈ es → ages !! t_group e = Some row →
  ∀ tl : gmap string Z,
    record_lives ages es tl !! t_group e = Some (age_mean row).
Proof.
  intros He Hrow. induction es as [|e' es IH]; intros tl.
  - by apply elem_of_nil in He.
  - apply elem_of_cons in He as [<-|He].
    + change (record_lives ages (e :: es) tl)
        with (record_lives ages es
                match ages !! t_group e with
                | Some row => <[t_group e := age_mean row]> tl
                | None => tl
                end).
      rewrite Hrow. apply record_lives_keeps; [done|].
      by rewrite lookup_insert_eq.
    + by apply IH.
Qed.

Lemma rebuild_for_invariant (fuel : nat) (ages : gmap string age_stats)
    (H : Z) (r : loc) :
  ∀ (es : list target) (h h' : list (list target)) (tl tl' : gmap string Z),
    rebuild_for fuel ages H r es (h, tl) = Return (h', tl') →
    tl' = record_lives ages es tl
    ∧ (∀ e, e ∈ es → is_Some (ages !! t_group e))
    ∧ ∃ xs, h' = append_all r xs h
            ∧ ∀ x, x ∈ xs → ∃ e, e ∈ es ∧ t_group x = t_group e.
Proof.
  induction es as [|[[Y t] q] es IH]; intros h h' tl tl'.
  - intros [= <- <-]. split; [done|]. split.
    + intros e He. by apply elem_of_nil in He.
    + exists []. split; [done|]. intros x Hx. by apply elem_of_nil in Hx.
  - cbn [rebuild_for fst snd].
    destruct (ages !! t) as [row|] eqn:Hrow; [|done].
    destruct (rebuild_while fuel Y (age_mean row) H t q r 1 h)
      as [h1| |] eqn:Hwhile; simpl; try done.
    intros Hrun. apply IH in Hrun as (-> & Hknown & xs & -> & Hxs).
    apply rebuild_while_appends in Hwhile as (ys & -> & Hys).
    split; [|split].
    + unfold record_lives. simpl. unfold t_group. simpl. by rewrite Hrow.
    + intros e He. apply elem_of_cons in He as [->|He]; [|by apply Hknown].
      unfold t_group. simpl. by rewrite Hrow.
    + exists (ys ++ xs). split; [by rewrite append_all_app|].
      intros x Hx. apply elem_of_app in Hx as [Hx|Hx].
      * exists (Y, t, q). split; [left|]. by apply Hys.
      * destruct (Hxs x Hx) as (e & He & Hg). exists e. split; [by right|done].
Qed.

(** In a run that returns, the power and energy lists are the two views of
    [tech_group_targets], and every target, rebuilt ones included, has its
    group in [tech_life] with the mean age of the group. *)
Lemma components_of_a_run (fuel : nat)
    (definite_table psip_table : list target) (m : model) (c : components) :
  define_components fuel definite_table psip_table m = Return c →
  tech_group_power_targets c = make_power_targets (tech_group_targets c)
  ∧ tech_group_energy_targets c = make_energy_targets (tech_group_targets c)
  ∧ ∀ e, e ∈ tech_group_targets c →
         ∃ row, ages m !! t_group e = Some row
                ∧ tech_life c !! t_group e = Some (age_mean row).
Proof.
  unfold define_components.
  destruct (resolve_psip (USE_PSIP_PLAN m) (psip_force (opts m)))
    as [[|]| |]; simpl; try done.
  - destruct (str_in "LNG" (FUELS m)
              && bool_decide (default [] (force_lng_tier (opts m)) ≠ ["none"]));
      simpl; try done.
    destruct (rebuild_targets fuel m _ _) as [[h tl]| |]; simpl; done.
  - set (h0 := match force_build (opts m) with
               | Some build => [definite_table ++ [build]]
               | None => [definite_table]
               end).
    assert (0 < length h0)%nat as Hlen.
    { unfold h0. destruct (force_build (opts m)); simpl; lia. }
    destruct (rebuild_targets fuel m 0 h0) as [[h tl]| |] eqn:Hrun;
      simpl; try done.
    intros [= <-]. simpl. split; [done|]. split; [done|].
    unfold rebuild_targets in Hrun.
    destruct (assert_ _ msg_batteries); simpl in Hrun; try done.
    destruct (assert_ _ msg_mixed_ages); simpl in Hrun; try done.
    destruct (last (PERIODS m)) as [H|]; simpl in Hrun; try done.
    apply rebuild_for_invariant in Hrun as (-> & Hknown & xs & -> & Hxs).
    rewrite contents_append_all_eq by done.
    assert (∀ e, e ∈ rebuildable_targets m 0 h0 →
                 ∃ row, ages m !! t_group e = Some row
                        ∧ record_lives (ages m) (rebuildable_targets m 0 h0) ∅
                            !! t_group e = Some (age_mean row)) as Hlives.
    { intros e He. destruct (Hknown e He) as [row Hrow].
      exists row. split; [done|]. by apply record_lives_lookup. }
    intros e He. apply elem_of_app in He as [He|He].
    + apply Hlives. unfold rebuildable_targets. apply elem_of_app. by right.
    + destruct (Hxs e He) as (e' & He' & Hg). rewrite Hg. by apply Hlives.
Qed.

Lemma make_power_targets_filter (G : string) (s P L : Z) (tgts : list target) :
  map snd (filter (contributes s P G L) (make_power_targets tgts))
  = map (fun e => power_of (t_quantity e))
      (filter (fun e => t_group e = G ∧ s < t_year e ∧ t_year e <= P
                        ∧ t_year e + L > P) tgts).
Proof.
  set (in_window := fun e : target =>
         t_group e = G ∧ s < t_year e ∧ t_year e <= P ∧ t_year e + L > P).
  induction tgts as [|e tgts IH]; [done|].
  unfold make_power_targets in *. cbn [map].
  destruct (decide (in_window e)) as [Hc|Hc].
  - rewrite (filter_cons_True (contributes s P G L)) by exact Hc.
    rewrite (filter_cons_True in_window) by exact Hc.
    simpl. by rewrite IH.
  - rewrite (filter_cons_False (contributes s P G L)) by exact Hc.
    by rewrite (filter_cons_False in_window) by exact Hc.
Qed.

(** The window law on a whole run: for every period and every group, the
    power target computed from the components of a run that returned is the
    sum of the power quantities of the targets of that group in the window
    of the period that are not retired at its start. *)
Corollary power_target_of_a_run (fuel : nat)
    (definite_table psip_table : list target) (m : model) (c : components)
    (P : Z) (G : string) :
  define_components fuel definite_table psip_table m = Return c →
  NoDup (PERIODS m) →
  P ∈ PERIODS m →
  ∃ s, window_start (PERIODS m) P s ∧
    tech_group_power_target c m P G =
    Return (total
      (map (fun e => power_of (t_quantity e))
         (filter (fun e => t_group e = G ∧ s < t_year e ∧ t_year e <= P
                           ∧ t_year e + default 0 (tech_life c !! G) > P)
                 (tech_group_targets c)))).
Proof.
  intros Hrun Hnd HP.
  destruct (components_of_a_run _ _ _ _ _ Hrun) as (Hpow & _ & Hlife).
  destruct (window_start_exists _ _ HP) as [s Hs]. exists s. split; [done|].
  unfold tech_group_power_target, tech_group_target.
  pose proof (window_start_computed _ _ _ Hnd Hs) as Hstart.
  destruct (PERIODS_first (PERIODS m)) as [first| |]; simpl in *; try done.
  rewrite Hstart. simpl.
  rewrite (sum_targets_window _ G s P (default 0 (tech_life c !! G))).
  - unfold total. by rewrite Hpow, make_power_targets_filter.
  - rewrite Hpow. intros e He Hg. unfold make_power_targets in He.
    apply list_elem_of_fmap in He as (e' & -> & He'). simpl in Hg.
    destruct (Hlife e' He') as (row & _ & Hl). rewrite Hg in Hl.
    by rewrite Hl.
Qed.

(** ** Spellings of the environment variable *)

Example env_yes_any_case :
  resolve_psip (Some "YES") false = Return true
  ∧ resolve_psip (Some "Off") true = Return false
  ∧ resolve_psip (Some "2") true = Raise (ValueError msg_unrecognized_env)
  ∧ resolve_psip None true = Return true.
Proof. repeat split. Qed.

(** ** Names of renewable and battery technologies (lines 33-36) *)

Lemma append_String (x : ascii) (a c : string) :
  String.append (String x a) c = String x (String.append a c).
Proof. reflexivity. Qed.

Lemma append_Empty (c : string) : String.append EmptyString c = c.
Proof. reflexivity. Qed.

Lemma prefix_append (a b : string) :
  String.prefix a b = true ↔ ∃ c, b = String.append a c.
Proof.
  revert b. induction a as [|x a IH]; intros b.
  - destruct b; split; try done; intros _; eexists; by rewrite append_Empty.
  - destruct b as [|y b]; cbn [String.prefix].
    + split; [done|]. intros [c Hc]. by rewrite append_String in Hc.
    + destruct (ascii_dec x y) as [->|Hne].
      * rewrite IH. split; intros [c Hc]; exists c;
          rewrite append_String in *; congruence.
      * split; [done|]. intros [c Hc]. rewrite append_String in Hc.
        congruence.
Qed.

Lemma substr_in_append (txt s : string) :
  substr_in txt s = true ↔
  ∃ pre post, s = String.append pre (String.append txt post).
Proof.
  induction s as [|x s IH]; cbn [substr_in].
  - rewrite orb_false_r, prefix_append. split.
    + intros [c Hc]. exists EmptyString, c. by rewrite append_Empty.
    + intros (pre & post & Hs). destruct pre as [|y pre].
      * exists post. by rewrite append_Empty in Hs.
      * by rewrite append_String in Hs.
  - rewrite orb_true_iff, prefix_append, IH. split.
    + intros [[c Hc]|(pre & post & ->)].
      * exists EmptyString, c. by rewrite append_Empty.
      * exists (String x pre), post. by rewrite append_String.
    + intros (pre & post & Hs). destruct pre as [|y pre].
      * left. exists post. by rewrite append_Empty in Hs.
      * right. exists pre, post. rewrite append_String in Hs. congruence.
Qed.

(** [is_renewable] holds exactly for the names that contain PV, Wind or
    Solar, with that capitalisation, anywhere in the name. *)
Theorem is_renewable_contains (tech : string) :
  is_renewable tech = true ↔
  ∃ txt pre post,
    txt ∈ ["PV"; "Wind"; "Solar"] ∧
    tech = String.append pre (String.append txt post).
Proof.
  unfold is_renewable. rewrite existsb_exists. split.
  - intros (txt & Hin & Hsub). apply substr_in_append in Hsub as (pre & post & ->).
    exists txt, pre, post. split; [by apply list_elem_of_In|done].
  - intros (txt & pre & post & Hin & ->). exists txt.
    split; [by apply list_elem_of_In|].
    apply substr_in_append. eauto.
Qed.

(** [is_battery] holds exactly for the names whose lower-case form contains
    "battery"; the capitalisation of the name does not matter. *)
Theorem is_battery_contains (tech : string) :
  (is_battery tech = true ↔
   ∃ pre post,
     lower tech = String.append pre (String.append "battery" post))
  ∧ (∀ tech', lower tech' = lower tech → is_battery tech' = is_battery tech).
Proof.
  unfold is_battery. split; [apply substr_in_append|].
  by intros tech' ->.
Qed.

(** ** Technology groups and the reverse mapping (lines 378-393) *)

Lemma elem_of_missing_techs (keys : list string) (tgts : list target)
    (t : string) :
  t ∈ missing_techs keys tgts ↔
  (t ∉ keys) ∧ ∃ e, e ∈ tgts ∧ t_group e = t.
Proof.
  revert t. induction tgts as [|e tgts IH]; intros t; simpl.
  - split; [intros Ht; by apply elem_of_nil in Ht|].
    intros (_ & e & He & _). by apply elem_of_nil in He.
  - destruct (str_in (t_group e) keys) eqn:Hk; simpl.
    + apply str_in_elem in Hk. rewrite IH. split.
      * intros (Ht & e' & He' & Hg). split; [done|]. exists e'.
        split; [by right|done].
      * intros (Ht & e' & He' & Hg). split; [done|].
        apply elem_of_cons in He' as [->|He']; [congruence|]. eauto.
    + apply str_in_not_elem in Hk.
      destruct (str_in (t_group e) (missing_techs keys tgts)) eqn:Hm.
      * apply str_in_elem in Hm. rewrite IH. split.
        -- intros (Ht & e' & He' & Hg). split; [done|]. exists e'.
           split; [by right|done].
        -- intros (Ht & e' & He' & Hg). split; [done|].
           apply elem_of_cons in He' as [->|He']; [|eauto].
           apply IH in Hm as (_ & e'' & He'' & Hg'').
           exists e''. split; [done|congruence].
      * rewrite elem_of_cons, IH. split.
        -- intros [->|(Ht & e' & He' & Hg)].
           ++ split; [done|]. exists e. split; [left|done].
           ++ split; [done|]. exists e'. split; [by right|done].
        -- intros (Ht & e' & He' & Hg).
           apply elem_of_cons in He' as [->|He']; [by left|].
           right. eauto.
Qed.

Lemma NoDup_missing_techs (keys : list string) (tgts : list target) :
  NoDup (missing_techs keys tgts).
Proof.
  induction tgts as [|e tgts IH]; simpl; [constructor|].
  destruct (str_in (t_group e) keys); simpl; [done|].
  destruct (str_in (t_group e) (missing_techs keys tgts)) eqn:Hm; [done|].
  apply str_in_not_elem in Hm. by constructor.
Qed.

(** The keys of [techs_for_tech_group], which become
    [FORECASTED_TECH_GROUPS], are the two base groups and every group named
    by a target, each once. *)
Theorem forecasted_groups_of_targets (tgts : list target) :
  NoDup (map fst (make_techs_for_tech_group tgts))
  ∧ ∀ g, g ∈ map fst (make_techs_for_tech_group tgts) ↔
         g ∈ ["DistPV"; "LargePV"] ∨ ∃ e, e ∈ tgts ∧ t_group e = g.
Proof.
  unfold make_techs_for_tech_group. rewrite map_app, map_map. simpl.
  rewrite map_id.
  set (ms := missing_techs ["DistPV"; "LargePV"] tgts).
  split.
  - change ("DistPV" :: "LargePV" :: ms) with (["DistPV"; "LargePV"] ++ ms).
    apply NoDup_app. split; [|split].
    + apply (bool_decide_unpack _). by vm_compute.
    + intros g Hg Hms. apply elem_of_missing_techs in Hms as [Hno _]. done.
    + apply NoDup_missing_techs.
  - intros g.
    change ("DistPV" :: "LargePV" :: ms) with (["DistPV"; "LargePV"] ++ ms).
    rewrite elem_of_app. unfold ms. rewrite elem_of_missing_techs.
    destruct (decide (g ∈ ["DistPV"; "LargePV"])); tauto.
Qed.

Lemma insert_all_lookup (g : string) (techs : list string)
    (d : gmap string string) (tech : string) :
  foldl (fun d t => <[t := g]> d) d techs !! tech =
  if decide (tech ∈ techs) then Some g else d !! tech.
Proof.
  revert d. induction techs as [|a techs IH]; intros d; cbn [foldl].
  - rewrite decide_False; [done|]. intros Hin. by apply elem_of_nil in Hin.
  - rewrite IH. destruct (decide (tech ∈ techs)) as [Hin|Hin].
    + rewrite decide_True; [done|by right].
    + destruct (decide (tech = a)) as [->|Hne].
      * rewrite decide_True by left. by rewrite lookup_insert_eq.
      * rewrite decide_False by (rewrite elem_of_cons; tauto).
        by rewrite lookup_insert_ne.
Qed.

Lemma make_tech_tech_group_snoc (items : list (string * list string))
    (g : string) (techs : list string) (tech : string) :
  make_tech_tech_group (items ++ [(g, techs)]) !! tech =
  if decide (tech ∈ techs) then Some g
  else make_tech_tech_group items !! tech.
Proof.
  unfold make_tech_tech_group. rewrite foldl_app. simpl.
  apply insert_all_lookup.
Qed.

(** The reverse mapping only relates a technology to a group that lists
    it, and it is defined on every listed technology. *)
Theorem reverse_mapping_sound (items : list (string * list string))
    (tech : string) :
  (∀ g, make_tech_tech_group items !! tech = Some g →
        ∃ techs, (g, techs) ∈ items ∧ tech ∈ techs)
  ∧ (is_Some (make_tech_tech_group items !! tech) ↔
     ∃ g techs, (g, techs) ∈ items ∧ tech ∈ techs).
Proof.
  induction items as [|[g' techs'] items [IH1 IH2]] using rev_ind.
  - split.
    + intros g Hg. done.
    + split; [intros [g Hg]; done|].
      intros (g & techs & Hin & _). by apply elem_of_nil in Hin.
  - split.
    + intros g. rewrite make_tech_tech_group_snoc.
      destruct (decide (tech ∈ techs')) as [Hin|Hin].
      * intros [= <-]. exists techs'. split; [|done].
        apply elem_of_app. right. left.
      * intros Hg. destruct (IH1 g Hg) as (techs & Hi & Ht).
        exists techs. split; [|done]. apply elem_of_app. by left.
    + rewrite make_tech_tech_group_snoc.
      destruct (decide (tech ∈ techs')) as [Hin|Hin].
      * split; [|by eauto]. intros _. exists g', techs'.
        split; [|done]. apply elem_of_app. right. left.
      * rewrite IH2. split.
        -- intros (g & techs & Hi & Ht). exists g, techs.
           split; [|done]. apply elem_of_app. by left.
        -- intros (g & techs & Hi & Ht).
           apply elem_of_app in Hi as [Hi|Hi]; [by eauto|].
           apply list_elem_of_singleton in Hi. congruence.
Qed.

Lemma make_tech_tech_group_singletons (items : list (string * list string))
    (ms : list string) (tech : string) :
  make_tech_tech_group (items ++ map (fun t => (t, [t])) ms) !! tech =
  if decide (tech ∈ ms) then Some tech
  else make_tech_tech_group items !! tech.
Proof.
  induction ms as [|t ms IH] using rev_ind.
  - cbn [map]. rewrite app_nil_r. rewrite decide_False; [done|].
    intros Hin. by apply elem_of_nil in Hin.
  - rewrite map_app. simpl. rewrite app_assoc.
    rewrite make_tech_tech_group_snoc, IH.
    destruct (decide (tech ∈ [t])) as [Ht|Ht].
    + apply list_elem_of_singleton in Ht. subst t.
      rewrite decide_True; [done|]. apply elem_of_app. right. left.
    + destruct (decide (tech ∈ ms)) as [Hm|Hm].
      * rewrite decide_True; [done|]. apply elem_of_app. by left.
      * rewrite decide_False; [done|]. rewrite elem_of_app. tauto.
Qed.

(** A group that is named by a target and is not a base group is mapped to
    itself as a technology, even when a base group lists it as a member;
    every other technology keeps the mapping of the base table. *)
Theorem tech_tech_group_of_targets (tgts : list target) (tech : string) :
  (tech ∉ ["DistPV"; "LargePV"] → (∃ e, e ∈ tgts ∧ t_group e = tech) →
   make_tech_tech_group (make_techs_for_tech_group tgts) !! tech = Some tech)
  ∧ ((tech ∈ ["DistPV"; "LargePV"] ∨ ¬ ∃ e, e ∈ tgts ∧ t_group e = tech) →
     make_tech_tech_group (make_techs_for_tech_group tgts) !! tech =
     ({[ "DistPV" := "DistPV"; "SlopedDistPV" := "DistPV";
         "FlatDistPV" := "DistPV"; "CentralTrackingPV" := "LargePV";
         "CentralFixedPV" := "LargePV" ]} : gmap string string) !! tech).
Proof.
  unfold make_techs_for_tech_group.
  rewrite make_tech_tech_group_singletons. simpl map.
  assert (make_tech_tech_group techs_for_tech_group_base
          = ({[ "DistPV" := "DistPV"; "SlopedDistPV" := "DistPV";
                "FlatDistPV" := "DistPV"; "CentralTrackingPV" := "LargePV";
                "CentralFixedPV" := "LargePV" ]} : gmap string string))
    as Hbase by (vm_compute; reflexivity).
  split.
  - intros Hk He. rewrite decide_True; [done|].
    by apply elem_of_missing_techs.
  - intros Hor. rewrite decide_False; [by rewrite Hbase|].
    rewrite elem_of_missing_techs. tauto.
Qed.

(** ** Appending after the merge (lines 365-374 and 446) *)

(** An [append] to the merged list reaches the list of definite targets
    exactly when PSIP is off: with PSIP the merged list is a new object and
    the definite list keeps its contents. *)
Theorem append_after_merge (psip : bool) (psip_relax_after : option Q)
    (psip_table : list target) (definite : loc) (h : list (list target))
    (x : target) :
  (definite < length h)%nat →
  let tgts := (merge_targets psip psip_relax_after psip_table definite h).1 in
  let h' := (merge_targets psip psip_relax_after psip_table definite h).2 in
  contents (append tgts x h') tgts = contents h' tgts ++ [x]
  ∧ contents (append tgts x h') definite =
    if psip then contents h definite else contents h definite ++ [x].
Proof.
  intros Hdef. unfold merge_targets. destruct psip; cbv beta iota zeta.
  - unfold new_list. cbn [fst snd]. split.
    + apply contents_append_eq. rewrite length_app. simpl. lia.
    + rewrite contents_append_ne by lia.
      unfold contents. by rewrite lookup_app_l.
  - cbn [fst snd]. split; by apply contents_append_eq.
Qed.

Lemma append_after_merge_witness :
  contents (append O (2045, "DistPV", MW 162.3) [scenario_definite]) O
  = scenario_definite ++ [(2045, "DistPV", MW 162.3)]
  ∧ contents (append O (2045, "DistPV", MW 162.3) [scenario_definite]) O
    = scenario_definite ++ [(2045, "DistPV", MW 162.3)].
Proof.
  apply (append_after_merge false None [] O [scenario_definite]
           (2045, "DistPV", MW 162.3)).
  simpl. lia.
Defined.

(** ** The last definite year of a group (lines 532-534) *)

Lemma make_last_definite_target_snoc (l : list target) (e : target) :
  make_last_definite_target (l ++ [e]) =
  <[t_group e := Z.max (t_year e)
                   (default 0 (make_last_definite_target l !! t_group e))]>
    (make_last_definite_target l).
Proof. unfold make_last_definite_target. by rewrite foldl_app. Qed.

(** [last_definite_target] has an entry for a group exactly when the list
    has a target of the group; the entry is the largest year of these
    targets, or 0 when none of them is positive. *)
Theorem last_definite_target_is_max (l : list target) (g : string) :
  (make_last_definite_target l !! g = None ↔ ∀ e, e ∈ l → t_group e ≠ g)
  ∧ (∀ y, make_last_definite_target l !! g = Some y →
       0 <= y
       ∧ (∀ e, e ∈ l → t_group e = g → t_year e <= y)
       ∧ (y = 0 ∨ ∃ e, e ∈ l ∧ t_group e = g ∧ t_year e = y)).
Proof.
  induction l as [|e l [IHn IHs]] using rev_ind.
  - split; [split; [intros _ e He; by apply elem_of_nil in He|done]|done].
  - rewrite make_last_definite_target_snoc.
    destruct (decide (t_group e = g)) as [Heq|Hne].
    + subst g. rewrite lookup_insert_eq. split.
      * split; [done|]. intros Hall. exfalso.
        apply (Hall e); [|done]. apply elem_of_app. right. left.
      * intros y [= <-].
        destruct (make_last_definite_target l !! t_group e) as [y0|] eqn:Hy0;
          simpl.
        -- destruct (IHs y0 eq_refl) as (H0 & Hle & Hex).
           split; [lia|]. split.
           ++ intros e' He' Hg.
              apply elem_of_app in He' as [He'|He'].
              ** specialize (Hle e' He' Hg). lia.
              ** apply list_elem_of_singleton in He'. subst e'. lia.
           ++ destruct (Z.max_spec (t_year e) y0) as [[_ ->]|[_ ->]].
              ** destruct Hex as [->|(e' & He' & Hg & Hy)]; [by left|].
                 right. exists e'. split; [|done]. apply elem_of_app. by left.
              ** right. exists e. split; [|done]. apply elem_of_app.
                 right. left.
        -- split; [lia|]. split.
           ++ intros e' He' Hg.
              apply elem_of_app in He' as [He'|He'].
              ** exfalso. by apply (proj1 IHn eq_refl e' He').
              ** apply list_elem_of_singleton in He'. subst e'. lia.
           ++ destruct (Z.max_spec (t_year e) 0) as [[_ ->]|[_ ->]];
                [by left|].
              right. exists e. split; [|done]. apply elem_of_app. right. left.
    + rewrite lookup_insert_ne by done. split.
      * rewrite IHn. split.
        -- intros Hall e' He'. apply elem_of_app in He' as [He'|He'].
           ++ by apply Hall.
           ++ apply list_elem_of_singleton in He'. by subst e'.
        -- intros Hall e' He'. apply Hall. apply elem_of_app. by left.
      * intros y Hy. destruct (IHs y Hy) as (H0 & Hle & Hex).
        split; [done|]. split.
        -- intros e' He' Hg. apply elem_of_app in He' as [He'|He'].
           ++ by apply Hle.
           ++ apply list_elem_of_singleton in He'. subst e'. done.
        -- destruct Hex as [->|(e' & He' & Hg & Hy')]; [by left|].
           right. exists e'. split; [|done]. apply elem_of_app. by left.
Qed.

Lemma last_definite_le (l : list target) (g : string) (per : Z) :
  per <= default 0 (make_last_definite_target l !! g) ↔
  per <= 0 ∨ ∃ e, e ∈ l ∧ t_group e = g ∧ per <= t_year e.
Proof.
  induction l as [|e l IH] using rev_ind.
  - simpl. split; [by left|]. intros [Hper|(e & He & _)]; [done|].
    by apply elem_of_nil in He.
  - rewrite make_last_definite_target_snoc.
    destruct (decide (t_group e = g)) as [Heq|Hne].
    + subst g. rewrite lookup_insert_eq. simpl. split.
      * intros Hper.
        destruct (Z.max_spec (t_year e)
                    (default 0 (make_last_definite_target l !! t_group e)))
          as [[_ Hmax]|[_ Hmax]]; rewrite Hmax in Hper.
        -- apply IH in Hper as [Hper|(e' & He' & Hg & Hy)]; [by left|].
           right. exists e'. split; [|done]. apply elem_of_app. by left.
        -- right. exists e. split; [|done]. apply elem_of_app. right. left.
      * intros [Hper|(e' & He' & Hg & Hy)].
        -- assert (per <= default 0 (make_last_definite_target l !! t_group e))
             by (apply IH; by left). lia.
        -- apply elem_of_app in He' as [He'|He'].
           ++ assert (per <= default 0
                                (make_last_definite_target l !! t_group e))
                by (apply IH; right; by exists e'). lia.
           ++ apply list_elem_of_singleton in He'. subst e'. lia.
    + rewrite lookup_insert_ne by done. rewrite IH. split.
      * intros [Hper|(e' & He' & Hg & Hy)]; [by left|].
        right. exists e'. split; [|done]. apply elem_of_app. by left.
      * intros [Hper|(e' & He' & Hg & Hy)]; [by left|].
        apply elem_of_app in He' as [He'|He'].
        -- right. by exists e'.
        -- apply list_elem_of_singleton in He'. by subst e'.
Qed.

(** ** The variables of a constraint (lines 546-552) *)

(** The build of a pair sums exactly the variables of the period whose
    project is of a technology mapped to the group and has a variable in
    that period; two different groups never share a variable. *)
Theorem matching_build_vars_spec (c : components) (m : model) (per : Z)
    (tech_group : string) (build_var : list (string * Z)) :
  (∀ g p, (g, p) ∈ matching_build_vars c m per tech_group build_var ↔
          p = per ∧ g ∈ GENERATION_PROJECTS m
          ∧ tech_tech_group c !! gen_tech m g = Some tech_group
          ∧ (g, per) ∈ build_var)
  ∧ (∀ other v, other ≠ tech_group →
       v ∈ matching_build_vars c m per tech_group build_var →
       v ∉ matching_build_vars c m per other build_var).
Proof.
  assert (∀ tg g p, (g, p) ∈ matching_build_vars c m per tg build_var ↔
            p = per ∧ g ∈ GENERATION_PROJECTS m
            ∧ tech_tech_group c !! gen_tech m g = Some tg
            ∧ (g, per) ∈ build_var) as Hspec.
  { intros tg g p. unfold matching_build_vars.
    rewrite list_elem_of_fmap. split.
    - intros (g' & [= -> ->] & Hin).
      apply list_elem_of_In, filter_In in Hin as [Hin Hf].
      apply list_elem_of_In in Hin.
      destruct (tech_tech_group c !! gen_tech m g') as [tg'|]; [|done].
      apply andb_true_iff in Hf as [Heq Hbv].
      apply String.eqb_eq in Heq. apply bool_decide_eq_true in Hbv.
      subst. done.
    - intros (-> & Hin & Htg & Hbv). exists g. split; [done|].
      apply list_elem_of_In, filter_In. split; [by apply list_elem_of_In|].
      rewrite Htg, String.eqb_refl. simpl. by apply bool_decide_eq_true. }
  split; [apply Hspec|].
  intros other [g p] Hne Hin Hin'.
  apply Hspec in Hin as (_ & _ & Htg & _).
  apply Hspec in Hin' as (_ & _ & Htg' & _). congruence.
Qed.

(** ** Unit sizes of a group (lines 491-501) *)

Lemma unit_sizes_loop_invariant (c : components) (m : model)
    (items : list (string * Q)) :
  ∀ us us' : gmap string Q,
    unit_sizes_loop c m items us = Return us' →
    (∀ tg u, us !! tg = Some u → us' !! tg = Some u)
    ∧ (∀ g size tg, (g, size) ∈ items →
         tech_tech_group c !! gen_tech m g = Some tg →
         ∃ u, us' !! tg = Some u ∧ (u == size)%Q).
Proof.
  induction items as [|[g size] items IH]; intros us us'; simpl.
  - intros [= <-]. split; [done|]. intros g size tg Hin. by apply elem_of_nil in Hin.
  - destruct (tech_tech_group c !! gen_tech m g) as [tg|] eqn:Htg.
    + destruct (us !! tg) as [u|] eqn:Hu.
      * destruct (Qeq_bool u size) eqn:Hq; simpl; [|done].
        intros Hrun. destruct (IH _ _ Hrun) as [Hkeep Hall].
        split; [done|]. intros g' size' tg' Hin Htg'.
        apply elem_of_cons in Hin as [[= -> ->]|Hin]; [|by eapply Hall].
        exists u. split; [|by apply Qeq_bool_iff].
        apply Hkeep. congruence.
      * intros Hrun. destruct (IH _ _ Hrun) as [Hkeep Hall].
        split.
        -- intros tg' u' Hu'. apply Hkeep.
           rewrite lookup_insert_ne; [done|]. congruence.
        -- intros g' size' tg' Hin Htg'.
           apply elem_of_cons in Hin as [[= -> ->]|Hin]; [|by eapply Hall].
           exists size. split; [|reflexivity].
           apply Hkeep. assert (tg' = tg) as -> by congruence.
           by rewrite lookup_insert_eq.
    + intros Hrun. destruct (IH _ _ Hrun) as [Hkeep Hall].
      split; [done|]. intros g' size' tg' Hin Htg'.
      apply elem_of_cons in Hin as [[= -> ->]|Hin]; [congruence|].
      by eapply Hall.
Qed.

Lemma unit_sizes_loop_outcome (c : components) (m : model)
    (items : list (string * Q)) :
  ∀ us : gmap string Q,
    (∃ us', unit_sizes_loop c m items us = Return us')
    ∨ unit_sizes_loop c m items us = Raise (ValueError msg_unit_sizes).
Proof.
  induction items as [|[g size] items IH]; intros us; simpl; [by eauto|].
  destruct (tech_tech_group c !! gen_tech m g) as [tg|]; [|done].
  destruct (us !! tg) as [u|]; [|done].
  destruct (Qeq_bool u size); simpl; [done|by right].
Qed.

(** When the unit-size pass returns, every forecasted project with a unit
    size has the size recorded for its group; two forecasted projects of
    one group with different unit sizes make it raise the ValueError. *)
Theorem unit_sizes_agree (c : components) (m : model) :
  (∀ unit_sizes,
     unit_sizes_loop c m (gen_unit_size m) ∅ = Return unit_sizes →
     ∀ g size tg, (g, size) ∈ gen_unit_size m →
       tech_tech_group c !! gen_tech m g = Some tg →
       ∃ u, unit_sizes !! tg = Some u ∧ (u == size)%Q)
  ∧ (∀ g1 size1 g2 size2 tg,
       (g1, size1) ∈ gen_unit_size m → (g2, size2) ∈ gen_unit_size m →
       tech_tech_group c !! gen_tech m g1 = Some tg →
       tech_tech_group c !! gen_tech m g2 = Some tg →
       ¬ (size1 == size2)%Q →
       unit_sizes_loop c m (gen_unit_size m) ∅
       = Raise (ValueError msg_unit_sizes)).
Proof.
  split.
  - intros us Hrun. by apply (unit_sizes_loop_invariant _ _ _ _ _ Hrun).
  - intros g1 size1 g2 size2 tg Hin1 Hin2 Htg1 Htg2 Hne.
    destruct (unit_sizes_loop_outcome c m (gen_unit_size m) ∅)
      as [[us Hrun]|Hraise]; [|done].
    exfalso. apply Hne.
    destruct (unit_sizes_loop_invariant _ _ _ _ _ Hrun) as [_ Hall].
    destruct (Hall _ _ _ Hin1 Htg1) as (u1 & Hu1 & Hq1).
    destruct (Hall _ _ _ Hin2 Htg2) as (u2 & Hu2 & Hq2).
    assert (u2 = u1) as -> by congruence.
    by rewrite <- Hq1, <- Hq2.
Qed.

(** ** The guard on predetermined energy (lines 509-521) *)

(** The energy pass stores nothing: it raises NotImplementedError exactly
    when some forecasted storage project with predetermined capacity has a
    free energy-to-power ratio, and otherwise returns the dict unchanged. *)
Theorem predetermined_energy_guard (c : components) (m : model)
    (items : list (string * Z * Q)) (d : gmap (string * Z) Q) :
  predetermined_energy_loop c m items d =
  if existsb
       (fun '(g, _, _) =>
          in_FORECASTED_TECHS c (gen_tech m g) && str_in g (STORAGE_GENS m)
          && bool_decide (gen_storage_energy_to_power_ratio m g = None))
       items
  then Raise (NotImplementedError msg_todo_energy)
  else Return d.
Proof.
  induction items as [|[[g per] cap] items IH]; simpl; [done|].
  destruct (in_FORECASTED_TECHS c (gen_tech m g) && str_in g (STORAGE_GENS m));
    simpl; [|done].
  destruct (gen_storage_energy_to_power_ratio m g) as [r|]; simpl; done.
Qed.

(** ** One rule per index (lines 484-593) *)




(** ** Each event in one period, each chain once per period (lines 468-480) *)

Lemma sorted_NoDup (l : list Z) : StronglySorted Z.lt l → NoDup l.
Proof.
  induction 1 as [|x l Hs IH Hall]; constructor; [|done].
  intros Hin. rewrite Forall_forall in Hall. specialize (Hall x Hin). lia.
Qed.

Lemma sorted_window_start (periods : list Z) (P s x : Z) :
  StronglySorted Z.lt periods →
  window_start periods P s → x ∈ periods → x < P → x <= s.
Proof.
  intros Hs [[Hhd ->]|[_ (before & after & ->)]] Hx Hlt.
  - destruct periods as [|p periods]; [by apply elem_of_nil in Hx|].
    simpl in Hhd. injection Hhd as ->.
    apply StronglySorted_cons in Hs as [Hall _].
    rewrite Forall_forall in Hall.
    apply elem_of_cons in Hx as [->|Hx]; [lia|].
    specialize (Hall x Hx). lia.
  - apply elem_of_app in Hx as [Hx|Hx].
    + pose proof (StronglySorted_app_1_elem_of Z.lt _ _ x s Hs Hx
                    ltac:(left)). lia.
    + apply StronglySorted_app_1_r in Hs.
      apply elem_of_cons in Hx as [->|Hx]; [lia|].
      apply StronglySorted_cons in Hs as [_ Hs].
      apply StronglySorted_cons in Hs as [Hall _].
      rewrite Forall_forall in Hall.
      apply elem_of_cons in Hx as [->|Hx]; [lia|].
      specialize (Hall x Hx). lia.
Qed.

Lemma target_of_one_event (c : components) (m : model) (P s : Z)
    (G : string) (L y : Z) (q : Q) :
  NoDup (PERIODS m) → window_start (PERIODS m) P s →
  tech_life c !! G = Some L →
  tech_group_target c m P G [(y, G, q)] =
  Return (if decide (s < y ∧ y <= P ∧ y + L > P) then (0 + q)%Q else 0%Q).
Proof.
  intros Hnd Hs Hlife. unfold tech_group_target.
  pose proof (window_start_computed _ _ _ Hnd Hs) as Hstart.
  destruct (PERIODS_first (PERIODS m)) as [first| |]; simpl in *; try done.
  rewrite Hstart. simpl. rewrite String.eqb_refl, Hlife. simpl.
  destruct (Z.ltb_spec s y), (Z.leb_spec y P); simpl;
    try (rewrite decide_False by lia; done).
  destruct (Z.gtb_spec (y + L) P).
  - rewrite decide_True by lia. done.
  - rewrite decide_False by lia. done.
Qed.

(** With increasing period years an event with a quantity that is not zero
    is counted in at most one period: if the target of a period includes
    it, the target of every other period does not. *)
Theorem event_counts_in_one_period (c : components) (m : model)
    (G : string) (L y : Z) (q : Q) (P1 P2 : Z) :
  StronglySorted Z.lt (PERIODS m) →
  P1 ∈ PERIODS m → P2 ∈ PERIODS m → P1 ≠ P2 →
  tech_life c !! G = Some L →
  ¬ (q == 0)%Q →
  tech_group_target c m P1 G [(y, G, q)] = Return (0 + q)%Q →
  tech_group_target c m P2 G [(y, G, q)] = Return 0%Q.
Proof.
  intros Hs HP1 HP2 Hne Hlife Hq H1.
  pose proof (sorted_NoDup _ Hs) as Hnd.
  destruct (window_start_exists _ _ HP1) as [s1 Hs1].
  destruct (window_start_exists _ _ HP2) as [s2 Hs2].
  rewrite (target_of_one_event c m P1 s1 G L y q Hnd Hs1 Hlife) in H1.
  rewrite (target_of_one_event c m P2 s2 G L y q Hnd Hs2 Hlife).
  destruct (decide (s1 < y ∧ y <= P1 ∧ y + L > P1)) as [Hc1|Hc1].
  - rewrite decide_False; [done|]. intros Hc2.
    destruct (Z.lt_total P1 P2) as [Hlt|[Heq|Hgt]]; [|done|].
    + pose proof (sorted_window_start _ _ _ _ Hs Hs2 HP1 Hlt). lia.
    + pose proof (sorted_window_start _ _ _ _ Hs Hs1 HP2 Hgt). lia.
  - exfalso. apply Hq. injection H1 as H1.
    assert ((0 + q)%Q = 0%Q) as Heq by done.
    rewrite <- Heq. ring.
Qed.

(** An event and any of its rebuilt successors are never counted in the
    same period: the target of the pair is the target of one of them. *)
Theorem chain_counts_once_per_period (c : components) (m : model) (P : Z)
    (G : string) (L Y k : Z) (q : Q) :
  0 < L → 1 <= k →
  tech_life c !! G = Some L →
  tech_group_target c m P G [(Y, G, q); (Y + k * L, G, q)]
  = tech_group_target c m P G [(Y, G, q)]
  ∨ tech_group_target c m P G [(Y, G, q); (Y + k * L, G, q)]
    = tech_group_target c m P G [(Y + k * L, G, q)].
Proof.
  intros HL Hk Hlife. unfold tech_group_target.
  destruct (PERIODS_first (PERIODS m)) as [first| |]; simpl; [|by left..].
  destruct (if P =? first then Return 0 else PERIODS_prev (PERIODS m) P)
    as [s| |]; simpl; [|by left..].
  rewrite String.eqb_refl, Hlife. simpl.
  destruct (Z.ltb_spec s Y), (Z.leb_spec Y P); simpl; try (by right).
  destruct (Z.gtb_spec (Y + L) P); [|by right].
  left.
  destruct (Z.ltb_spec s (Y + k * L)), (Z.leb_spec (Y + k * L) P); simpl;
    try done.
  nia.
Qed.

Lemma sum_targets_nonneg (tl : gmap string Z) (G : string) (s P : Z)
    (targets : list (Z * string * Q)) :
  (∀ e, e ∈ targets → (0 <= e.2)%Q) →
  ∀ acc v, (0 <= acc)%Q →
    sum_targets tl G s P targets acc = Return v → (0 <= v)%Q.
Proof.
  induction targets as [|[[y t] q] targets IH]; intros Hall acc v Hacc; simpl.
  - by intros [= <-].
  - assert (∀ e, e ∈ targets → (0 <= e.2)%Q) as Hall'
      by (intros e He; apply Hall; by right).
    assert (0 <= q)%Q as Hq by (apply (Hall (y, t, q)); left).
    destruct ((t =? G)%string && (s <? y) && (y <=? P)); [|by apply IH].
    destruct (tl !! t) as [life|]; [|done].
    destruct (y + life >? P); [|by apply IH].
    apply IH; [done|].
    rewrite <- (Qplus_0_l 0). by apply Qplus_le_compat.
Qed.

(** A period target computed from quantities that are not negative is not
    negative. *)
Theorem target_nonnegative (c : components) (m : model) (P : Z) (G : string)
    (targets : list (Z * string * Q)) (v : Q) :
  (∀ e, e ∈ targets → (0 <= e.2)%Q) →
  tech_group_target c m P G targets = Return v →
  (0 <= v)%Q.
Proof.
  intros Hall. unfold tech_group_target.
  destruct (PERIODS_first (PERIODS m)) as [first| |]; simpl; try done.
  destruct (if P =? first then Return 0 else PERIODS_prev (PERIODS m) P)
    as [s| |]; simpl; try done.
  apply sum_targets_nonneg; [done|]. apply Qle_refl.
Qed.

Lemma event_counts_in_one_period_witness :
  tech_group_target three_period_components three_period_model 2030 "LargePV"
    [(2022, "LargePV", 100%Q)] = Return 0%Q.
Proof.
  apply (event_counts_in_one_period three_period_components
           three_period_model "LargePV" 25 2022 100%Q 2025 2030).
  - repeat constructor; lia.
  - apply (bool_decide_unpack _). vm_compute. reflexivity.
  - apply (bool_decide_unpack _). vm_compute. reflexivity.
  - lia.
  - vm_compute. reflexivity.
  - intros Hq. vm_compute in Hq. discriminate Hq.
  - vm_compute. reflexivity.
Defined.

Lemma chain_counts_once_per_period_witness :
  tech_group_target scenario_components scenario_model 2045 "DistPV"
    [(2020, "DistPV", 162.3%Q); (2020 + 1 * 25, "DistPV", 162.3%Q)]
  = tech_group_target scenario_components scenario_model 2045 "DistPV"
      [(2020, "DistPV", 162.3%Q)]
  ∨ tech_group_target scenario_components scenario_model 2045 "DistPV"
      [(2020, "DistPV", 162.3%Q); (2020 + 1 * 25, "DistPV", 162.3%Q)]
    = tech_group_target scenario_components scenario_model 2045 "DistPV"
        [(2020 + 1 * 25, "DistPV", 162.3%Q)].
Proof.
  apply (chain_counts_once_per_period scenario_components scenario_model 2045
           "DistPV" 25 2020 1 162.3%Q).
  - lia.
  - lia.
  - vm_compute. reflexivity.
Defined.

Lemma target_nonnegative_witness :
  (0 <= 0 + 162.3)%Q.
Proof.
  apply (target_nonnegative scenario_components scenario_model 2045 "DistPV"
           (tech_group_power_targets scenario_components) (0 + 162.3)%Q).
  - intros e He. vm_compute in He.
    repeat (apply elem_of_cons in He as [->|He]; [by vm_compute|]).
    by apply elem_of_nil in He.
  - vm_compute. reflexivity.
Defined.

(** ** The shape of a run that returns *)

Lemma run_shape (fuel : nat) (definite_table psip_table : list target)
    (m : model) (c : components) :
  define_components fuel definite_table psip_table m = Return c →
  resolve_psip (USE_PSIP_PLAN m) (psip_force (opts m)) = Return false
  ∧ psip c = false
  ∧ techs_for_tech_group c
    = make_techs_for_tech_group (definite_table ++ forced m)
  ∧ tech_tech_group c
    = make_tech_tech_group
        (make_techs_for_tech_group (definite_table ++ forced m))
  ∧ tech_group_targets_definite c = tech_group_targets c
  ∧ last_definite_target c = make_last_definite_target (tech_group_targets c)
  ∧ ∃ h tl,
      rebuild_targets fuel m 0 [definite_table ++ forced m] = Return (h, tl)
      ∧ tech_group_targets c = contents h 0
      ∧ tech_life c = tl.
Proof.
  unfold define_components, forced.
  destruct (resolve_psip (USE_PSIP_PLAN m) (psip_force (opts m)))
    as [[|]| |]; simpl; try done.
  - destruct (str_in "LNG" (FUELS m)
              && bool_decide (default [] (force_lng_tier (opts m)) ≠ ["none"]));
      simpl; try done.
    destruct (rebuild_targets fuel m _ _) as [[h tl]| |]; simpl; done.
  - assert (match force_build (opts m) with
            | Some build => [definite_table ++ [build]]
            | None => [definite_table]
            end
            = [definite_table ++ match force_build (opts m) with
                                 | Some build => [build]
                                 | None => []
                                 end]) as ->
      by (destruct (force_build (opts m)); [done|by rewrite app_nil_r]).
    destruct (rebuild_targets fuel m 0 _) as [[h tl]| |] eqn:Hrun;
      simpl; try done.
    intros [= <-]. simpl. repeat split; try done. by exists h, tl.
Qed.

(** ** PSIP in force (lines 47-73 and 595-599) *)





Example psip_run_ends_in_todo :
  define_components 3 scenario_definite [] (with_env "yes" scenario_model)
  = Raise (NotImplementedError msg_todo_psip).
Proof. vm_compute. reflexivity. Qed.

(** ** The rule in a run that returns (lines 532-576) *)

Lemma run_targets_prefix (fuel : nat)
    (definite_table psip_table : list target) (m : model) (c : components) :
  define_components fuel definite_table psip_table m = Return c →
  ∃ xs, tech_group_targets c = (definite_table ++ forced m) ++ xs.
Proof.
  intros Hrun.
  apply run_shape in Hrun as (_ & _ & _ & _ & _ & _ & h & tl & Hreb & -> & _).
  unfold rebuild_targets in Hreb.
  destruct (assert_ _ msg_batteries); simpl in Hreb; try done.
  destruct (assert_ _ msg_mixed_ages); simpl in Hreb; try done.
  destruct (last (PERIODS m)) as [H|]; simpl in Hreb; try done.
  apply rebuild_for_invariant in Hreb as (_ & _ & xs & -> & _).
  exists xs. by rewrite contents_append_all_eq by (simpl; lia).
Qed.

Lemma group_in_techs_for_tech_group (tgts : list target) (e : target) :
  e ∈ tgts → t_group e ∈ map fst (make_techs_for_tech_group tgts).
Proof.
  intros He. unfold make_techs_for_tech_group.
  rewrite map_app, map_map. simpl. rewrite map_id.
  destruct (decide (t_group e ∈ ["DistPV"; "LargePV"])) as [Hb|Hb].
  - apply elem_of_cons in Hb as [->|Hb]; [left|].
    apply list_elem_of_singleton in Hb as ->. right. left.
  - right. right. apply elem_of_missing_techs. eauto.
Qed.

(** In a run that returns, a pair with at least one build variable always
    gets a constraint on exactly the given target, and the constraint is an
    equality exactly when the period is not later than the year of some
    target of the group, rebuilt targets included (or is not positive), or
    when minimal renewables is set and the group is a renewable forecasted
    group; otherwise it is a lower bound. The relaxation year plays no
    part. *)
Theorem rule_of_a_run (fuel : nat) (definite_table psip_table : list target)
    (m : model) (c : components) (per : Z) (tech_group : string)
    (build_var : list (string * Z)) (target : Q) :
  define_components fuel definite_table psip_table m = Return c →
  matching_build_vars c m per tech_group build_var ≠ [] →
  ∃ k,
    tech_group_target_rule c m per tech_group build_var target = Return k
    ∧ enforced_value k = Some target
    ∧ (mode_of k = Exact ∨ mode_of k = LowerBound)
    ∧ (mode_of k = Exact ↔
       per <= 0
       ∨ (∃ e, e ∈ tech_group_targets c ∧ t_group e = tech_group
               ∧ per <= t_year e)
       ∨ (psip_minimal_renewables (opts m) = true
          ∧ tech_group ∈ FORECASTED_TECH_GROUPS c
          ∧ is_renewable tech_group = true)).
Proof.
  intros Hrun Hbuild.
  apply run_shape in Hrun as (_ & Hpsip & _ & _ & _ & Hldt & _).
  unfold tech_group_target_rule.
  destruct (matching_build_vars c m per tech_group build_var) as [|b bs];
    [done|].
  rewrite Hpsip, Hldt. cbn [andb].
  pose proof (last_definite_le (tech_group_targets c) tech_group per) as Hle.
  destruct (Z.leb_spec per
              (default 0 (make_last_definite_target (tech_group_targets c)
                          !! tech_group))) as [Hper|Hper].
  - eexists. split; [done|]. split; [done|]. split; [by left|].
    split; [|done]. intros _. apply Hle in Hper. tauto.
  - assert (¬ (per <= 0 ∨ ∃ e, e ∈ tech_group_targets c
                               ∧ t_group e = tech_group ∧ per <= t_year e))
      as Hnot by (rewrite <- Hle; lia).
    unfold in_RENEWABLE_TECH_GROUPS.
    destruct (psip_minimal_renewables (opts m)); simpl.
    + destruct (str_in tech_group (FORECASTED_TECH_GROUPS c)) eqn:Hin; simpl.
      * apply str_in_elem in Hin.
        destruct (is_renewable tech_group).
        -- eexists. split; [done|]. split; [done|]. split; [by left|].
           split; [|done]. intros _. tauto.
        -- eexists. split; [done|]. split; [done|]. split; [by right|].
           split; [done|]. intros [?|[?|(_ & _ & ?)]]; [tauto|tauto|done].
      * apply str_in_not_elem in Hin.
        eexists. split; [done|]. split; [done|]. split; [by right|].
        split; [done|]. intros [?|[?|(_ & ? & _)]]; [tauto|tauto|done].
    + eexists. split; [done|]. split; [done|]. split; [by right|].
      split; [done|]. intros [?|[?|(? & _)]]; [tauto|tauto|done].
Qed.

Lemma rule_of_a_run_witness :
  ∃ k,
    tech_group_target_rule scenario_components scenario_model 2030 "DistPV"
      (BuildGen scenario_model) 0%Q = Return k
    ∧ enforced_value k = Some 0%Q
    ∧ (mode_of k = Exact ∨ mode_of k = LowerBound)
    ∧ (mode_of k = Exact ↔
       2030 <= 0
       ∨ (∃ e, e ∈ tech_group_targets scenario_components
               ∧ t_group e = "DistPV" ∧ 2030 <= t_year e)
       ∨ (psip_minimal_renewables (opts scenario_model) = true
          ∧ "DistPV" ∈ FORECASTED_TECH_GROUPS scenario_components
          ∧ is_renewable "DistPV" = true)).
Proof.
  apply (rule_of_a_run 3 scenario_definite [] scenario_model
           scenario_components 2030 "DistPV" (BuildGen scenario_model) 0%Q).
  - vm_compute. reflexivity.
  - vm_compute. discriminate.
Defined.

(** The target given by --force-build is one of the definite targets: in a
    run that returns it is in the list of targets, its group is a
    forecasted group, and every period up to its year that has a build
    variable of the group gets an equality, not a lower bound. *)
Theorem forced_build_is_exact (fuel : nat)
    (definite_table psip_table : list target) (m : model) (c : components)
    (b : target) (per : Z) (build_var : list (string * Z)) (target : Q) :
  define_components fuel definite_table psip_table m = Return c →
  force_build (opts m) = Some b →
  b ∈ tech_group_targets c
  ∧ t_group b ∈ FORECASTED_TECH_GROUPS c
  ∧ (per <= t_year b →
     matching_build_vars c m per (t_group b) build_var ≠ [] →
     tech_group_target_rule c m per (t_group b) build_var target
     = Return (Build_eq (matching_build_vars c m per (t_group b) build_var)
                 target)).
Proof.
  intros Hrun Hforce.
  destruct (run_targets_prefix _ _ _ _ _ Hrun) as [xs Htg].
  apply run_shape in Hrun as (_ & Hpsip & Htft & _ & _ & Hldt & _).
  assert (b ∈ definite_table ++ forced m) as Hb.
  { unfold forced. rewrite Hforce. apply elem_of_app. right. left. }
  assert (b ∈ tech_group_targets c) as Hin
    by (rewrite Htg; apply elem_of_app; by left).
  split; [done|]. split.
  - unfold FORECASTED_TECH_GROUPS. rewrite Htft.
    by apply group_in_techs_for_tech_group.
  - intros Hper Hbuild. unfold tech_group_target_rule.
    destruct (matching_build_vars c m per (t_group b) build_var) as [|v vs];
      [done|].
    rewrite Hpsip, Hldt. cbn [andb].
    assert (per <= default 0 (make_last_definite_target (tech_group_targets c)
                              !! t_group b)) as Hle.
    { apply last_definite_le. right. by exists b. }
    apply Z.leb_le in Hle. by rewrite Hle.
Qed.

Lemma forced_build_is_exact_witness :
  (2020, "FlowStorage", MW 100) ∈ tech_group_targets storage_components
  ∧ t_group (2020, "FlowStorage", MW 100)
    ∈ FORECASTED_TECH_GROUPS storage_components
  ∧ (2020 <= t_year (2020, "FlowStorage", MW 100) →
     matching_build_vars storage_components storage_model 2020
       (t_group (2020, "FlowStorage", MW 100)) (BuildGen storage_model) ≠ [] →
     tech_group_target_rule storage_components storage_model 2020
       (t_group (2020, "FlowStorage", MW 100)) (BuildGen storage_model) 105%Q
     = Return (Build_eq
                 (matching_build_vars storage_components storage_model 2020
                    (t_group (2020, "FlowStorage", MW 100))
                    (BuildGen storage_model))
                 105%Q)).
Proof.
  apply (forced_build_is_exact 3 [] [] storage_model storage_components
           (2020, "FlowStorage", MW 100) 2020 (BuildGen storage_model) 105%Q).
  - vm_compute. reflexivity.
  - reflexivity.
Defined.

(** ** Checks before the reconstruction (lines 422-441) *)

(** [rebuild_targets] fails before any target is rebuilt, in this order:
    on an existing battery row, on a group with projects of different
    maximum ages, and on an empty list of periods. *)
Theorem rebuild_targets_checks (fuel : nat) (m : model) (tgts : loc)
    (h : list (list target)) :
  ((∃ y t q, (y, t, q) ∈ existing_techs m ∧ is_battery t = true) →
   rebuild_targets fuel m tgts h = Raise (AssertionError msg_batteries))
  ∧ (no_existing_battery m →
     (∃ g row, ages m !! g = Some row ∧ age_min row ≠ age_max row) →
     rebuild_targets fuel m tgts h = Raise (AssertionError msg_mixed_ages))
  ∧ (no_existing_battery m → uniform_ages m → PERIODS m = [] →
     rebuild_targets fuel m tgts h = Raise (IndexError msg_no_periods)).
Proof.
  unfold rebuild_targets. split; [|split].
  - intros (y & t & q & Hin & Hb).
    assert (existsb (fun '(_, t, _) => is_battery t) (existing_techs m) = true)
      as ->; [|done].
    apply existsb_exists. exists (y, t, q).
    split; [by apply list_elem_of_In|done].
  - intros Hno (g & row & Hrow & Hne).
    rewrite (assert_no_battery m Hno). simpl.
    assert (forallb (fun row => age_min row.2 =? age_max row.2)
              (map_to_list (ages m)) = false) as ->; [|done].
    apply not_true_iff_false. intros Hall.
    rewrite forallb_forall in Hall.
    specialize (Hall (g, row)). simpl in Hall.
    apply Hne, Z.eqb_eq, Hall, list_elem_of_In, elem_of_map_to_list, Hrow.
  - intros Hno Hun Hnil.
    rewrite (assert_no_battery m Hno), (assert_uniform_ages m Hun), Hnil.
    done.
Qed.

Lemma rebuild_for_app (fuel : nat) (ages : gmap string age_stats) (H : Z)
    (r : loc) (es1 es2 : list target) :
  ∀ st : list (list target) * gmap string Z,
    rebuild_for fuel ages H r (es1 ++ es2) st =
    rebuild_for fuel ages H r es1 st ≫= rebuild_for fuel ages H r es2.
Proof.
  induction es1 as [|[[Y t] q] es1 IH]; intros st; [done|].
  cbn [app rebuild_for].
  destruct (ages !! t) as [row|]; [|done].
  destruct (rebuild_while fuel Y (age_mean row) H t q r 1 st.1);
    simpl; [apply IH|done..].
Qed.

(** A rebuildable target whose group has no row in [ages] makes the loop
    raise the ValueError, once the targets before it (with known groups
    and positive lives) have been rebuilt. *)
Theorem unknown_group_raises (ages : gmap string age_stats) (H : Z)
    (tgts : loc) (es1 : list target) (e : target) (es2 : list target) :
  (∀ e', e' ∈ es1 → ∃ row, ages !! t_group e' = Some row ∧ 0 < age_mean row) →
  ages !! t_group e = None →
  ∀ (fuel : nat) (st : list (list target) * gmap string Z),
    (enough_fuel ages H es1 <= fuel)%nat →
    rebuild_for fuel ages H tgts (es1 ++ e :: es2) st
    = Raise (ValueError msg_no_matching_tech).
Proof.
  intros Hpos Hnone fuel [h tl] Hfuel.
  rewrite rebuild_for_app, rebuild_for_returns; [| done |].
  - simpl. destruct e as [[Y t] q]. unfold t_group in Hnone. simpl in Hnone.
    by rewrite Hnone.
  - intros e' He'. pose proof (enough_fuel_ge ages H es1 e' He'). lia.
Qed.

Lemma unknown_group_raises_witness :
  rebuild_for 5 (ages scenario_model) 2045 O
    (scenario_definite ++ (2022, "IC_Barge", MW 100) :: [])
    ([scenario_definite], ∅)
  = Raise (ValueError msg_no_matching_tech).
Proof.
  refine (unknown_group_raises (ages scenario_model) 2045 O scenario_definite
            (2022, "IC_Barge", MW 100) [] _ _ 5%nat ([scenario_definite], ∅) _).
  - intros e He. apply list_elem_of_singleton in He. subst e.
    eexists. split; [vm_compute; reflexivity|reflexivity].
  - vm_compute. reflexivity.
  - vm_compute. lia.
Defined.

(** ** The targets of a run that returns (lines 315-324 and 429-447) *)

Lemma rebuild_while_mono (Y L H : Z) (t : string) (q : quantity) (r : loc) :
  ∀ (fuel fuel' : nat) (k : Z) (h h' : list (list target)),
    (fuel <= fuel')%nat →
    rebuild_while fuel Y L H t q r k h = Return h' →
    rebuild_while fuel' Y L H t q r k h = Return h'.
Proof.
  induction fuel as [|fuel IH]; intros fuel' k h h' Hle; simpl; [done|].
  destruct fuel' as [|fuel']; [lia|]. simpl.
  destruct (Y + k * L <=? H); [|done]. apply IH. lia.
Qed.

Lemma rebuild_for_mono (ages : gmap string age_stats) (H : Z) (r : loc)
    (fuel fuel' : nat) :
  (fuel <= fuel')%nat →
  ∀ (es : list target) (st st' : list (list target) * gmap string Z),
    rebuild_for fuel ages H r es st = Return st' →
    rebuild_for fuel' ages H r es st = Return st'.
Proof.
  intros Hle. induction es as [|[[Y t] q] es IH]; intros st st'; [done|].
  cbn [rebuild_for].
  destruct (ages !! t) as [row|]; [|done].
  destruct (rebuild_while fuel Y (age_mean row) H t q r 1 st.1)
    as [h1| |] eqn:Hw; simpl; try done.
  rewrite (rebuild_while_mono _ _ _ _ _ _ _ _ _ _ _ Hle Hw). simpl.
  apply IH.
Qed.

Lemma assert_no_battery_inv (m : model) :
  negb (existsb (fun '(_, t, _) => is_battery t) (existing_techs m)) = true →
  no_existing_battery m.
Proof.
  intros Hneg y t q Hin. apply negb_true_iff in Hneg.
  apply not_true_iff_false. intros Hb.
  apply not_true_iff_false in Hneg. apply Hneg.
  apply existsb_exists. exists (y, t, q).
  split; [by apply list_elem_of_In|done].
Qed.

(** In a run that returns, with positive mean ages, the list of targets is
    the definite table, the forced build if any, and then the successors up
    to the last period of each existing renewable row and of each of those
    targets, in this order. No existing row is a battery, and the existing
    rows themselves are not targets. *)
Theorem run_targets_shape (fuel : nat)
    (definite_table psip_table : list target) (m : model) (c : components) :
  define_components fuel definite_table psip_table m = Return c →
  (∀ g row, ages m !! g = Some row → 0 < age_mean row) →
  ∃ H,
    last (PERIODS m) = Some H
    ∧ no_existing_battery m
    ∧ tech_group_targets c =
      (definite_table ++ forced m)
      ++ flat_map (successors_of (ages m) H)
           (existing_rebuildable (existing_techs m)
            ++ definite_table ++ forced m).
Proof.
  intros Hrun Hpos.
  apply run_shape in Hrun as (_ & _ & _ & _ & _ & _ & h & tl & Hreb & -> & _).
  unfold rebuild_targets in Hreb.
  destruct (negb (existsb (fun '(_, t, _) => is_battery t) (existing_techs m)))
    eqn:Hbat; simpl in Hreb; try done.
  destruct (assert_ _ msg_mixed_ages); simpl in Hreb; try done.
  destruct (last (PERIODS m)) as [H|]; simpl in Hreb; try done.
  exists H. split; [done|]. split; [by apply assert_no_battery_inv|].
  set (es := rebuildable_targets m 0 [definite_table ++ forced m]) in *.
  pose proof (rebuild_for_invariant _ _ _ _ _ _ _ _ _ Hreb)
    as (_ & Hknown & _).
  set (fuel' := Nat.max fuel (enough_fuel (ages m) H es)).
  apply (rebuild_for_mono _ _ _ fuel fuel' ltac:(lia)) in Hreb.
  rewrite rebuild_for_returns in Hreb.
  - injection Hreb as <- _.
    by rewrite contents_append_all_eq by (simpl; lia).
  - intros e He. destruct (Hknown e He) as [row Hrow].
    exists row. split; [done|]. by eapply Hpos.
  - intros e He. pose proof (enough_fuel_ge (ages m) H es e He). lia.
Qed.

Lemma run_targets_shape_witness :
  ∃ H,
    last (PERIODS scenario_model) = Some H
    ∧ no_existing_battery scenario_model
    ∧ tech_group_targets scenario_components =
      (scenario_definite ++ forced scenario_model)
      ++ flat_map (successors_of (ages scenario_model) H)
           (existing_rebuildable (existing_techs scenario_model)
            ++ scenario_definite ++ forced scenario_model).
Proof.
  apply (run_targets_shape 3 scenario_definite [] scenario_model
           scenario_components).
  - vm_compute. reflexivity.
  - intros g row Hrow. unfold scenario_model, ages in Hrow.
    apply lookup_singleton_Some in Hrow as [_ <-]. reflexivity.
Defined.

(** ** Power and energy targets of a run (lines 450-488) *)

Lemma power_target_of_a_run_witness :
  ∃ s, window_start (PERIODS scenario_model) 2045 s ∧
    tech_group_power_target scenario_components scenario_model 2045 "DistPV" =
    Return (total
      (map (fun e => power_of (t_quantity e))
         (filter (fun e => t_group e = "DistPV" ∧ s < t_year e
                           ∧ t_year e <= 2045
                           ∧ t_year e
                             + default 0 (tech_life scenario_components
                                          !! "DistPV") > 2045)
                 (tech_group_targets scenario_components)))).
Proof.
  apply (power_target_of_a_run 3 scenario_definite [] scenario_model
           scenario_components 2045 "DistPV").
  - vm_compute. reflexivity.
  - apply (bool_decide_unpack _). vm_compute. reflexivity.
  - apply (bool_decide_unpack _). vm_compute. reflexivity.
Defined.

Lemma elem_of_make_energy_targets (tgts : list target) (x : Z * string * Q) :
  x ∈ make_energy_targets tgts →
  ∃ e, e ∈ tgts ∧ t_year e = x.1.1 ∧ t_group e = x.1.2
       ∧ energy_of (t_quantity e) = Some x.2.
Proof.
  induction tgts as [|[[y t] [mw|mw hours]] tgts IH]; simpl.
  - intros Hx. by apply elem_of_nil in Hx.
  - intros Hx. destruct (IH Hx) as (e & He & Hrest).
    exists e. split; [by right|done].
  - intros Hx. apply elem_of_cons in Hx as [->|Hx].
    + exists (y, t, MW_hours mw hours). split; [left|done].
    + destruct (IH Hx) as (e & He & Hrest). exists e. split; [by right|done].
Qed.

Lemma make_energy_targets_filter (G : string) (s P L : Z)
    (tgts : list target) :
  map snd (filter (contributes s P G L) (make_energy_targets tgts))
  = omap (fun e => energy_of (t_quantity e))
      (filter (in_window s P G L) tgts).
Proof.
  induction tgts as [|[[y t] [mw|mw hours]] tgts IH]; [done| |].
  - cbn [make_energy_targets]. rewrite IH.
    destruct (decide (in_window s P G L (y, t, MW mw))) as [Hc|Hc].
    + by rewrite (filter_cons_True (in_window s P G L)) by exact Hc.
    + by rewrite (filter_cons_False (in_window s P G L)) by exact Hc.
  - cbn [make_energy_targets].
    destruct (decide (in_window s P G L (y, t, MW_hours mw hours)))
      as [Hc|Hc].
    + rewrite (filter_cons_True (contributes s P G L)) by exact Hc.
      rewrite (filter_cons_True (in_window s P G L)) by exact Hc.
      simpl. by rewrite IH.
    + rewrite (filter_cons_False (contributes s P G L)) by exact Hc.
      by rewrite (filter_cons_False (in_window s P G L)) by exact Hc.
Qed.

(** In a run that returns, the energy target of every period and group is
    defined (no lookup of a life fails) and is the sum of MW times hours
    over the targets of the group in the window of the period that carry
    hours; a target given in MW alone adds nothing to it. *)
Theorem energy_target_of_a_run (fuel : nat)
    (definite_table psip_table : list target) (m : model) (c : components)
    (P : Z) (G : string) :
  define_components fuel definite_table psip_table m = Return c →
  NoDup (PERIODS m) →
  P ∈ PERIODS m →
  ∃ s, window_start (PERIODS m) P s ∧
    tech_group_energy_target c m P G =
    Return (total
      (omap (fun e => energy_of (t_quantity e))
         (filter (in_window s P G (default 0 (tech_life c !! G)))
                 (tech_group_targets c)))).
Proof.
  intros Hrun Hnd HP.
  destruct (components_of_a_run _ _ _ _ _ Hrun) as (_ & Hen & Hlife).
  destruct (window_start_exists _ _ HP) as [s Hs]. exists s. split; [done|].
  unfold tech_group_energy_target, tech_group_target.
  pose proof (window_start_computed _ _ _ Hnd Hs) as Hstart.
  destruct (PERIODS_first (PERIODS m)) as [first| |]; simpl in *; try done.
  rewrite Hstart. simpl.
  rewrite (sum_targets_window _ G s P (default 0 (tech_life c !! G))).
  - unfold total. by rewrite Hen, make_energy_targets_filter.
  - rewrite Hen. intros x Hx Hg.
    apply elem_of_make_energy_targets in Hx as (e & He & _ & Hge & _).
    destruct (Hlife e He) as (row & _ & Hl).
    rewrite Hge, Hg in Hl. by rewrite Hl.
Qed.

Lemma energy_target_of_a_run_witness :
  ∃ s, window_start (PERIODS scenario_model) 2045 s ∧
    tech_group_energy_target scenario_components scenario_model 2045 "DistPV" =
    Return (total
      (omap (fun e => energy_of (t_quantity e))
         (filter (in_window s 2045 "DistPV"
                    (default 0 (tech_life scenario_components !! "DistPV")))
                 (tech_group_targets scenario_components)))).
Proof.
  apply (energy_target_of_a_run 3 scenario_definite [] scenario_model
           scenario_components 2045 "DistPV").
  - vm_compute. reflexivity.
  - apply (bool_decide_unpack _). vm_compute. reflexivity.
  - apply (bool_decide_unpack _). vm_compute. reflexivity.
Defined.

Lemma sum_targets_other_groups (tl : gmap string Z) (G : string) (s P : Z)
    (targets : list (Z * string * Q)) (acc : Q) :
  (∀ e, e ∈ targets → e.1.2 ≠ G) →
  sum_targets tl G s P targets acc = Return acc.
Proof.
  induction targets as [|[[y t] q] targets IH]; intros Hall; [done|].
  cbn [sum_targets].
  destruct (String.eqb_spec t G) as [->|_].
  - exfalso. apply (Hall (y, G, q)); [left|done].
  - simpl. apply IH. intros e He. apply Hall. by right.
Qed.

(** A group none of whose targets carries hours has an energy target of 0
    in every period. Its energy rule then skips the pair when the group has
    no storage variable there, and when it has one and the period is not
    after the last definite year, it sets the energy build to exactly the
    zero target. *)
Theorem energy_rule_of_power_only_group (c : components) (m : model)
    (d : tech_group_dicts) (per : Z) (G : string) :
  NoDup (PERIODS m) →
  per ∈ PERIODS m →
  MakeTechGroupDicts_rule c m = Return d →
  (∀ e, e ∈ tech_group_energy_targets c → e.1.2 ≠ G) →
  tech_group_energy_target c m per G = Return 0%Q
  ∧ (no_decision_variable c m per G (BuildStorageEnergy m) →
     Enforce_Tech_Group_Energy_Target c d m per G = Return Constraint_Skip)
  ∧ (matching_build_vars c m per G (BuildStorageEnergy m) ≠ [] →
     per <= default 0 (last_definite_target c !! G) →
     Enforce_Tech_Group_Energy_Target c d m per G
     = Return (Build_eq (matching_build_vars c m per G (BuildStorageEnergy m))
                 (0 + 0)%Q)).
Proof.
  intros Hnd Hper Hd Hnone.
  assert (tech_group_energy_target c m per G = Return 0%Q) as Htarget.
  { destruct (window_start_exists _ _ Hper) as [s Hs].
    unfold tech_group_energy_target, tech_group_target.
    pose proof (window_start_computed _ _ _ Hnd Hs) as Hstart.
    destruct (PERIODS_first (PERIODS m)) as [first| |]; simpl in *; try done.
    rewrite Hstart. simpl. by apply sum_targets_other_groups. }
  assert (tech_group_predetermined_energy_cap_dict d = ∅) as Hempty.
  { unfold MakeTechGroupDicts_rule in Hd.
    destruct (unit_sizes_loop c m (gen_unit_size m) ∅) as [us| |];
      simpl in Hd; try done.
    destruct (predetermined_energy_loop c m (gen_predetermined_cap m) ∅)
      as [en| |] eqn:Hen; simpl in Hd; try done.
    apply predetermined_energy_loop_keeps in Hen. subst en.
    by injection Hd as <-. }
  split; [done|].
  unfold Enforce_Tech_Group_Energy_Target. rewrite Htarget, Hempty. simpl.
  rewrite lookup_empty. simpl. unfold tech_group_target_rule. split.
  - intros Hno. by rewrite (no_decision_variable_build _ _ _ _ _ Hno).
  - intros Hbuild Hle.
    destruct (matching_build_vars c m per G (BuildStorageEnergy m))
      as [|v vs]; [done|].
    apply Z.leb_le in Hle. rewrite Hle.
    by destruct (psip c && _).
Qed.

Lemma energy_rule_of_power_only_group_witness :
  tech_group_energy_target storage_components storage_model 2020
    "FlowStorage" = Return 0%Q
  ∧ (no_decision_variable storage_components storage_model 2020 "FlowStorage"
       (BuildStorageEnergy storage_model) →
     Enforce_Tech_Group_Energy_Target storage_components storage_dicts
       storage_model 2020 "FlowStorage" = Return Constraint_Skip)
  ∧ (matching_build_vars storage_components storage_model 2020 "FlowStorage"
       (BuildStorageEnergy storage_model) ≠ [] →
     2020 <= default 0 (last_definite_target storage_components
                        !! "FlowStorage") →
     Enforce_Tech_Group_Energy_Target storage_components storage_dicts
       storage_model 2020 "FlowStorage"
     = Return (Build_eq
                 (matching_build_vars storage_components storage_model 2020
                    "FlowStorage" (BuildStorageEnergy storage_model))
                 (0 + 0)%Q)).
Proof.
  apply (energy_rule_of_power_only_group storage_components storage_model
           storage_dicts 2020 "FlowStorage").
  - apply (bool_decide_unpack _). vm_compute. reflexivity.
  - apply (bool_decide_unpack _). vm_compute. reflexivity.
  - vm_compute. reflexivity.
  - intros e He. vm_compute in He. by apply elem_of_nil in He.
Defined.

(** ** How the construction of an instance can end *)

Lemma for_each_outcome {A B} (f : A → outcome B) (l : list A)
    (allowed : exn → Prop) :
  (∀ a, a ∈ l →
        (∃ b, f a = Return b) ∨ (∃ e, f a = Raise e ∧ allowed e)) →
  (∃ r, for_each f l = Return r)
  ∨ (∃ e, for_each f l = Raise e ∧ allowed e).
Proof.
  induction l as [|a l IH]; intros Hall; simpl; [left; by eauto|].
  destruct (Hall a ltac:(left)) as [[b ->]|(e & -> & He)]; simpl;
    [|right; by eauto].
  destruct IH as [[r ->]|(e & -> & He)]; simpl.
  - intros a' Ha'. apply Hall. by right.
  - left. by eauto.
  - right. by eauto.
Qed.

Lemma period_targets_return (fuel : nat)
    (definite_table psip_table : list target) (m : model) (c : components)
    (P : Z) (G : string) :
  define_components fuel definite_table psip_table m = Return c →
  NoDup (PERIODS m) →
  P ∈ PERIODS m →
  (∃ v, tech_group_power_target c m P G = Return v)
  ∧ (∃ w, tech_group_energy_target c m P G = Return w).
Proof.
  intros Hrun Hnd HP.
  destruct (components_of_a_run _ _ _ _ _ Hrun) as (Hpow & Hen & Hlife).
  destruct (window_start_exists _ _ HP) as [s Hs].
  pose proof (window_start_computed _ _ _ Hnd Hs) as Hstart.
  unfold tech_group_power_target, tech_group_energy_target, tech_group_target.
  destruct (PERIODS_first (PERIODS m)) as [first| |]; simpl in *; try done.
  rewrite Hstart. simpl. split.
  - eexists. apply (sum_targets_window _ G s P (default 0 (tech_life c !! G))).
    rewrite Hpow. intros e He Hg. unfold make_power_targets in He.
    apply list_elem_of_fmap in He as (e' & -> & He'). simpl in Hg.
    destruct (Hlife e' He') as (row & _ & Hl). rewrite Hg in Hl.
    by rewrite Hl.
  - eexists. apply (sum_targets_window _ G s P (default 0 (tech_life c !! G))).
    rewrite Hen. intros x Hx Hg.
    apply elem_of_make_energy_targets in Hx as (e & He & _ & Hge & _).
    destruct (Hlife e He) as (row & _ & Hl).
    rewrite Hge, Hg in Hl. by rewrite Hl.
Qed.

Lemma rule_outcome (c : components) (m : model) (per : Z) (tg : string)
    (build_var : list (string * Z)) (target : Q) :
  (∃ k, tech_group_target_rule c m per tg build_var target = Return k)
  ∨ tech_group_target_rule c m per tg build_var target
    = Raise (ValueError msg_no_projects).
Proof.
  unfold tech_group_target_rule.
  destruct (matching_build_vars c m per tg build_var) as [|v vs].
  - destruct (Qeq_bool target 0); [left; by eauto|by right].
  - left. repeat match goal with
                 | |- context [if ?b then _ else _] => destruct b
                 end; by eauto.
Qed.

Lemma predetermined_energy_loop_outcome (c : components) (m : model)
    (items : list (string * Z * Q)) (d : gmap (string * Z) Q) :
  predetermined_energy_loop c m items d = Return d
  ∨ predetermined_energy_loop c m items d
    = Raise (NotImplementedError msg_todo_energy).
Proof.
  induction items as [|[[g per] cap] items IH]; simpl; [by left|].
  destruct (in_FORECASTED_TECHS c (gen_tech m g) && str_in g (STORAGE_GENS m));
    [|done].
  destruct (gen_storage_energy_to_power_ratio m g); [done|by right].
Qed.

(** The instance of a run that returned, over periods without duplicates,
    is always constructed or refused for one of three reasons: projects of
    one group with different unit sizes, a storage project that needs a
    predetermined energy capacity, or a non-zero target for a pair that has
    no build variable. No lookup of a life or of a period fails and no loop
    is left unfinished. *)
Theorem construct_outcome (fuel : nat)
    (definite_table psip_table : list target) (m : model) (c : components) :
  define_components fuel definite_table psip_table m = Return c →
  NoDup (PERIODS m) →
  (∃ i, construct c m = Return i)
  ∨ construct c m = Raise (ValueError msg_unit_sizes)
  ∨ construct c m = Raise (NotImplementedError msg_todo_energy)
  ∨ construct c m = Raise (ValueError msg_no_projects).
Proof.
  intros Hrun Hnd.
  assert (∀ per tg, (per, tg) ∈ target_index c m → per ∈ PERIODS m) as Hidx.
  { intros per tg Hin. unfold target_index in Hin.
    apply list_elem_of_bind in Hin as (p & Hin & Hp).
    apply list_elem_of_bind in Hin as (t & Hin & Ht).
    apply list_elem_of_singleton in Hin as [= -> ->]. done. }
  unfold construct.
  destruct (for_each_outcome
              (fun '(per, tg) => tech_group_power_target c m per tg)
              (target_index c m) (fun _ => False)) as [[pw ->]|(e & _ & [])].
  { intros [per tg] Hin. left.
    by apply (period_targets_return _ _ _ _ _ per tg Hrun Hnd), (Hidx per tg). }
  simpl.
  destruct (for_each_outcome
              (fun '(per, tg) => tech_group_energy_target c m per tg)
              (target_index c m) (fun _ => False)) as [[en ->]|(e & _ & [])].
  { intros [per tg] Hin. left.
    by apply (period_targets_return _ _ _ _ _ per tg Hrun Hnd), (Hidx per tg). }
  simpl. unfold MakeTechGroupDicts_rule.
  destruct (unit_sizes_loop_outcome c m (gen_unit_size m) ∅)
    as [[us ->]| ->]; simpl; [|tauto].
  destruct (predetermined_energy_loop_outcome c m (gen_predetermined_cap m) ∅)
    as [-> | ->]; simpl; [|tauto].
  set (d := {| tech_group_unit_size_dict := us;
               tech_group_predetermined_power_cap_dict :=
                 predetermined_power_loop c m (gen_predetermined_cap m);
               tech_group_predetermined_energy_cap_dict := ∅ |}).
  destruct (for_each_outcome
              (fun '(per, tg) => Enforce_Tech_Group_Power_Target c d m per tg)
              (target_index c m) (fun e => e = ValueError msg_no_projects))
    as [[pc ->]|(e & -> & ->)]; simpl; [| |tauto].
  { intros [per tg] Hin. unfold Enforce_Tech_Group_Power_Target.
    destruct (period_targets_return _ _ _ _ _ per tg Hrun Hnd
                (Hidx per tg Hin)) as [[v ->] _]. simpl.
    match goal with
    | |- context [tech_group_target_rule c m per tg ?bv ?t] =>
        destruct (rule_outcome c m per tg bv t) as [[k ->]| ->]
    end; [left|right]; by eauto. }
  destruct (for_each_outcome
              (fun '(per, tg) => Enforce_Tech_Group_Energy_Target c d m per tg)
              (target_index c m) (fun e => e = ValueError msg_no_projects))
    as [[ec ->]|(e & -> & ->)]; simpl; [|left; by eauto|tauto].
  intros [per tg] Hin. unfold Enforce_Tech_Group_Energy_Target.
  destruct (period_targets_return _ _ _ _ _ per tg Hrun Hnd
              (Hidx per tg Hin)) as [_ [w ->]]. simpl.
  match goal with
  | |- context [tech_group_target_rule c m per tg ?bv ?t] =>
      destruct (rule_outcome c m per tg bv t) as [[k ->]| ->]
  end; [left|right]; by eauto.
Qed.

Lemma construct_outcome_witness :
  (∃ i, construct scenario_components scenario_model = Return i)
  ∨ construct scenario_components scenario_model
    = Raise (ValueError msg_unit_sizes)
  ∨ construct scenario_components scenario_model
    = Raise (NotImplementedError msg_todo_energy)
  ∨ construct scenario_components scenario_model
    = Raise (ValueError msg_no_projects).
Proof.
  apply (construct_outcome 3 scenario_definite [] scenario_model
           scenario_components).
  - vm_compute. reflexivity.
  - apply (bool_decide_unpack _). vm_compute. reflexivity.
Defined.
